(** * wut: the Runner retry/timeout loop (runner.go), embedded in Rocq

    The development follows the Go sources:
    - [runner.go]: [Runner], [CommandOpts], [errMaxRunsCompleted],
      [NewRunner], [Run], [nextExecDelay], [executeCommand];
    - the [executor] interface and its test double [mockExecutor];
    - [cmd/wut/main.go]: the command-line flags and how [main] configures
      the Runner.

    The Go runtime pieces the loop relies on (the clock, [context], the
    [select] statement, [time.After]) are modelled in [Module Go] on a
    discrete clock counting nanoseconds, the way the [testing/synctest]
    bubble of the repository's tests runs them. *)

From Stdlib Require Import ZArith List String Bool Lia DecimalString.
Import ListNotations.
Local Open Scope Z_scope.

(* ================================================================= *)
(** ** The Go runtime, as far as the Runner uses it *)

Module Go.

(** The release configuration builds for amd64, arm and arm64.  Go's
    [uint] is 32 bits wide on arm and 64 bits wide on the other two. *)
Inductive GOARCH : Type := amd64 | arm | arm64.

Definition UintSize (a : GOARCH) : Z :=
  match a with
  | arm => 32
  | amd64 | arm64 => 64
  end.

Definition uint_modulus (a : GOARCH) : Z := 2 ^ UintSize a.

(** A value of type [uint]. *)
Definition is_uint (a : GOARCH) (x : Z) : Prop := 0 <= x < uint_modulus a.

(** [x++] on a [uint]: unsigned arithmetic wraps around. *)
Definition uint_incr (a : GOARCH) (x : Z) : Z := (x + 1) mod uint_modulus a.

(** [time.Duration]: a count of nanoseconds. *)
Definition Duration : Type := Z.
Definition Nanosecond : Duration := 1.
Definition Millisecond : Duration := 1000000.
Definition Second : Duration := 1000000000.

(** An instant of the (monotonic) clock, in nanoseconds. *)
Definition Time : Type := Z.

(** Error values.  [errorString] is what [errors.New] and a [fmt.Errorf]
    without [%w] build; [wrapError] is an error with an [Unwrap] method. *)
Inductive error : Type :=
| errorString (s : string)
| Canceled
| DeadlineExceeded
| wrapError (msg : string) (err : error).

Definition Unwrap (e : error) : option error :=
  match e with
  | wrapError _ inner => Some inner
  | _ => None
  end.

Fixpoint error_eqb (e1 e2 : error) : bool :=
  match e1, e2 with
  | errorString s1, errorString s2 => String.eqb s1 s2
  | Canceled, Canceled => true
  | DeadlineExceeded, DeadlineExceeded => true
  | wrapError m1 i1, wrapError m2 i2 => String.eqb m1 m2 && error_eqb i1 i2
  | _, _ => false
  end.

(** [errors.Is]: does [target] occur on the [Unwrap] chain of [e]? *)
Fixpoint errors_Is (e target : error) : bool :=
  error_eqb e target ||
  match e with
  | wrapError _ inner => errors_Is inner target
  | _ => false
  end.

(** A [context.Context], seen from outside: the instant at which its
    [Done] channel is closed (if ever), and the values [Err] and
    [context.Cause] report from then on. *)
Record Context : Type := mkContext {
  done_at : option Time;
  done_err : error;
  done_cause : error
}.

Definition Background : Context := mkContext None Canceled Canceled.

(** Is [ctx.Done()] closed at instant [t]? *)
Definition Done (ctx : Context) (t : Time) : bool :=
  match done_at ctx with
  | Some d => d <=? t
  | None => false
  end.

(** [ctx.Err()] at instant [t]. *)
Definition Err (ctx : Context) (t : Time) : option error :=
  if Done ctx t then Some (done_err ctx) else None.

(** [context.Cause(ctx)] at instant [t]. *)
Definition Cause (ctx : Context) (t : Time) : option error :=
  if Done ctx t then Some (done_cause ctx) else None.

(** [context.WithTimeoutCause(parent, d, cause)] called at instant [t]:
    the child is done as soon as the parent is, or at [t + d], whichever
    comes first. *)
Definition WithTimeoutCause (parent : Context) (t : Time) (d : Duration)
    (cause : error) : Context :=
  let deadline := t + d in
  match done_at parent with
  | Some p =>
      if p <=? deadline then parent
      else mkContext (Some deadline) DeadlineExceeded cause
  | None => mkContext (Some deadline) DeadlineExceeded cause
  end.

(** [context.WithTimeout(parent, d)]. *)
Definition WithTimeout (parent : Context) (t : Time) (d : Duration) : Context :=
  WithTimeoutCause parent t d DeadlineExceeded.

(** The two communication cases of
    [select { case <-ctx.Done(): ... case <-time.After(d): ... }]. *)
Inductive selected : Type := caseDone | caseTimer.

(** The [select] statement entered at instant [t].  The timer channel is
    ready at [t + max 0 d], the done channel at [max t (done_at ctx)].
    The case that is ready first proceeds; when both are ready at the same
    instant Go picks one of them by a pseudo-random choice, here [pick].
    The result is the case taken and the instant at which it is taken. *)
Definition select_ (ctx : Context) (t : Time) (d : Duration)
    (pick : selected) : selected * Time :=
  let fire := t + Z.max 0 d in
  match done_at ctx with
  | None => (caseTimer, fire)
  | Some dn =>
      let ready := Z.max t dn in
      match ready ?= fire with
      | Lt => (caseDone, ready)
      | Gt => (caseTimer, fire)
      | Eq => (pick, fire)
      end
  end.

End Go.

Export Go.

(* ================================================================= *)
(** ** Package wut *)

Module Wut.

(** [io.Writer] and [io.Reader], reduced to what a test double observes:
    a writer answers a write with an error or [nil]. *)
Definition Writer : Type := string -> option error.
Definition Reader : Type := string.

(** [CommandOpts]. *)
Record CommandOpts : Type := mkCommandOpts {
  Env : list string;
  Dir : string;
  Stdin : option Reader;
  Stdout : option Writer;
  Stderr : option Writer;
  Cancel : option (unit -> option error);
  WaitDelay : Duration
}.

(** The zero value of [CommandOpts]. *)
Definition zeroCommandOpts : CommandOpts :=
  mkCommandOpts [] EmptyString None None None None 0.

(** The [executor] interface:
    [Run(ctx, opts, name, args...) error].
    A call is entered at an instant [start] under the scope [ctx]; it
    answers with its error result, the time it took, and the executor's
    (and the outside world's) state afterwards.  [None] stands for a call
    that never returns to the Runner (it panics, or blocks for ever). *)
Class Executor (E : Type) : Type :=
  exec_Run : E -> Context -> Time -> CommandOpts -> string -> list string ->
             option (option error * Duration * E).

(** [Runner].  The logger only reports and the mutex [runlock] is only
    ever taken by the goroutine inside [Run]; neither is part of the
    state here. *)
Record Runner (E : Type) : Type := mkRunner {
  name : string;
  args : list string;
  baseCtx : Context;
  ProcessTimeout : Duration;
  RetryDelay : Duration;
  MaxRuns : Z;
  ContinueOnSuccess : bool;
  CommandOptions : CommandOpts;
  runsCompleted : Z;
  executor : E
}.

Arguments mkRunner {E}.
Arguments name {E}.
Arguments args {E}.
Arguments baseCtx {E}.
Arguments ProcessTimeout {E}.
Arguments RetryDelay {E}.
Arguments MaxRuns {E}.
Arguments ContinueOnSuccess {E}.
Arguments CommandOptions {E}.
Arguments runsCompleted {E}.
Arguments executor {E}.

Definition errMaxRunsCompleted : error :=
  errorString "wut: maximum number of runs completed".

(** [NewRunner(ctx, name, arg...)].  Every policy field is left at its
    zero value.  The source installs [cmdExecutor{}], which launches an
    operating-system process; here the process launcher is the instance
    [ex] of the [executor] interface that the caller supplies. *)
Definition NewRunner {E : Type} (ex : E) (ctx : Context) (nm : string)
    (arg : list string) : Runner E :=
  mkRunner nm arg ctx 0 0 0 false zeroCommandOpts 0 ex.

(** Field assignments [r.F = v]. *)
Definition set_ProcessTimeout {E} (v : Duration) (r : Runner E) : Runner E :=
  mkRunner (name r) (args r) (baseCtx r) v (RetryDelay r) (MaxRuns r)
           (ContinueOnSuccess r) (CommandOptions r) (runsCompleted r)
           (executor r).

Definition set_RetryDelay {E} (v : Duration) (r : Runner E) : Runner E :=
  mkRunner (name r) (args r) (baseCtx r) (ProcessTimeout r) v (MaxRuns r)
           (ContinueOnSuccess r) (CommandOptions r) (runsCompleted r)
           (executor r).

Definition set_MaxRuns {E} (v : Z) (r : Runner E) : Runner E :=
  mkRunner (name r) (args r) (baseCtx r) (ProcessTimeout r) (RetryDelay r) v
           (ContinueOnSuccess r) (CommandOptions r) (runsCompleted r)
           (executor r).

Definition set_ContinueOnSuccess {E} (v : bool) (r : Runner E) : Runner E :=
  mkRunner (name r) (args r) (baseCtx r) (ProcessTimeout r) (RetryDelay r)
           (MaxRuns r) v (CommandOptions r) (runsCompleted r) (executor r).

Definition set_executor {E E'} (v : E') (r : Runner E) : Runner E' :=
  mkRunner (name r) (args r) (baseCtx r) (ProcessTimeout r) (RetryDelay r)
           (MaxRuns r) (ContinueOnSuccess r) (CommandOptions r)
           (runsCompleted r) v.

(** What an observer of a run records: every [select] of the loop (the
    delay handed to [time.After], the case taken and the instant at which
    it was taken) and every call of the executor (the scope it ran under,
    when it was entered and left, and its result). *)
Inductive event : Type :=
| evSelect (delay : Duration) (won : selected) (at_ : Time)
| evExec (scope : Context) (start finish : Time) (result : option error).

(** The world around the Runner: the clock, the choices the scheduler
    makes whenever both cases of the loop's [select] are ready at once
    (one per [select] executed), and the record of events, most recent
    first. *)
Record World : Type := mkWorld {
  now : Time;
  sched : nat -> selected;
  selects : nat;
  trace : list event
}.

(** Number of executor calls recorded. *)
Fixpoint invocations (tr : list event) : nat :=
  match tr with
  | [] => O
  | evExec _ _ _ _ :: tr' => S (invocations tr')
  | evSelect _ _ _ :: tr' => invocations tr'
  end.

(** The delays handed to [time.After], most recent first. *)
Fixpoint delays (tr : list event) : list Duration :=
  match tr with
  | [] => []
  | evSelect d _ _ :: tr' => d :: delays tr'
  | evExec _ _ _ _ :: tr' => delays tr'
  end.

(** Total time spent inside executor calls. *)
Fixpoint exec_time (tr : list event) : Z :=
  match tr with
  | [] => 0
  | evExec _ start finish _ :: tr' => (finish - start) + exec_time tr'
  | evSelect _ _ _ :: tr' => exec_time tr'
  end.

(** How a call of [Run] can end: it returns (with its error result and
    the final Runner and world), it never returns because an executor
    call never did, or the fuel given to the loop ran out. *)
Inductive outcome (E : Type) : Type :=
| Returns (err : option error) (r : Runner E) (w : World)
| NoReturn
| OutOfFuel.

Arguments Returns {E}.
Arguments NoReturn {E}.
Arguments OutOfFuel {E}.

Section Runner.

Variable arch : GOARCH.
Context {E : Type} {Ex : Executor E}.

(** [nextExecDelay]. *)
Definition nextExecDelay (r : Runner E) : Duration :=
  if runsCompleted r =? 0 then 0 (* no delay for the first run *)
  else RetryDelay r.

(** The scope [executeCommand] hands to the executor. *)
Definition attemptScope (r : Runner E) (t : Time) : Context :=
  if 0 <? ProcessTimeout r
  then WithTimeout (baseCtx r) t (ProcessTimeout r)
  else baseCtx r.

(** [executeCommand]: one attempt.  The deferred [r.runsCompleted++] runs
    when the executor call has returned. *)
Definition executeCommand (r : Runner E) (w : World)
    : option (option error * Runner E * World) :=
  let ctx := attemptScope r (now w) in
  match exec_Run (executor r) ctx (now w) (CommandOptions r) (name r) (args r) with
  | None => None
  | Some (err, took, ex') =>
      let finish := now w + Z.max 0 took in
      Some (err,
            mkRunner (name r) (args r) (baseCtx r) (ProcessTimeout r)
                     (RetryDelay r) (MaxRuns r) (ContinueOnSuccess r)
                     (CommandOptions r)
                     (uint_incr arch (runsCompleted r)) ex',
            mkWorld finish (sched w) (selects w)
                    (evExec ctx (now w) finish err :: trace w))
  end.

(** The [select] at the head of the loop. *)
Definition awaitNext (r : Runner E) (w : World) : selected * World :=
  let d := nextExecDelay r in
  let '(won, t) := select_ (baseCtx r) (now w) d (sched w (selects w)) in
  (won, mkWorld t (sched w) (S (selects w)) (evSelect d won t :: trace w)).

(** What one iteration of the [for] loop of [Run] does. *)
Inductive step : Type :=
| Return (err : option error) (r : Runner E) (w : World)
| Continue (r : Runner E) (w : World)
| Stuck.

Definition iteration (r : Runner E) (w : World) : step :=
  match awaitNext r w with
  | (caseDone, w1) => Return (Cause (baseCtx r) (now w1)) r w1
  | (caseTimer, w1) =>
      if (0 <? MaxRuns r) && (MaxRuns r <=? runsCompleted r)
      then Return (Some errMaxRunsCompleted) r w1
      else
        match executeCommand r w1 with
        | None => Stuck
        | Some (err, r2, w2) =>
            match err with
            | None =>
                if negb (ContinueOnSuccess r2) then Return None r2 w2
                else Continue r2 w2
            | Some _ => Continue r2 w2
            end
        end
  end.

(** [Run]: the loop, unrolled at most [fuel] times. *)
Fixpoint Run (fuel : nat) (r : Runner E) (w : World) : outcome E :=
  match fuel with
  | O => OutOfFuel
  | S fuel' =>
      match iteration r w with
      | Return err r' w' => Returns err r' w'
      | Continue r' w' => Run fuel' r' w'
      | Stuck => NoReturn
      end
  end.

End Runner.

End Wut.

Export Wut.

(* ================================================================= *)
(** ** Test doubles for the executor interface *)

Module Doubles.

(** [mockExecutor] (exec_test.go): sleeps, writes its output, then exits
    with its exit code; gives up with [ctx.Err()] when its scope is done
    first. *)
Record mockExecutor : Type := mkMock {
  sleep : Duration;
  output : string;
  exitcode : Z
}.

Definition mockFailure (code : Z) : error :=
  errorString ("mock command failure with exit code "
               ++ NilZero.string_of_int (Z.to_int code)).

(** [mockExecutor.Run].  [pick] is the choice of the mock's own [select]
    when its scope is done at the very instant its sleep ends.  Writing a
    non-empty output to a nil [Stdout] panics. *)
Definition mockExecutor_Run (pick : selected) (me : mockExecutor)
    (ctx : Context) (start : Time) (opts : CommandOpts)
    (nm : string) (ar : list string)
    : option (option error * Duration * mockExecutor) :=
  match select_ ctx start (sleep me) pick with
  | (caseDone, t) => Some (Err ctx t, t - start, me)
  | (caseTimer, t) =>
      let exit :=
        if exitcode me =? 0 then None
        else Some (mockFailure (exitcode me)) in
      if String.eqb (output me) EmptyString then Some (exit, t - start, me)
      else
        match Stdout opts with
        | None => None
        | Some wr =>
            match wr (output me) with
            | Some e => Some (Some e, t - start, me)
            | None => Some (exit, t - start, me)
            end
        end
  end.

Definition mock_Executor (pick : selected) : Executor mockExecutor :=
  mockExecutor_Run pick.

(** [NewRunnerWithExecutor] (runner_test.go). *)
Definition NewRunnerWithExecutor (ctx : Context) (ex : mockExecutor)
    : Runner mockExecutor :=
  set_executor ex (NewRunner ex ctx EmptyString []).

(** A counting double: it fails on its first [failures] calls, succeeds
    on every later one, takes no time, and counts the calls it has
    received. *)
Record countingExecutor : Type := mkCounting {
  failures : Z;
  calls : Z
}.

Definition countingExecutor_Run (ce : countingExecutor)
    (ctx : Context) (start : Time) (opts : CommandOpts)
    (nm : string) (ar : list string)
    : option (option error * Duration * countingExecutor) :=
  let n := calls ce + 1 in
  Some (if n <=? failures ce then Some (mockFailure n) else None,
        0, mkCounting (failures ce) n).

#[export] Instance counting_Executor : Executor countingExecutor :=
  countingExecutor_Run.

(** A world whose clock starts at 0 and in which nothing has happened. *)
Definition startWorld (sc : nat -> selected) : World := mkWorld 0 sc O [].

End Doubles.

Export Doubles.

(* ================================================================= *)
(** ** The command line (cmd/wut/main.go) *)

Module Cli.

(** The flag variables of [main]. *)
Record flags : Type := mkFlags {
  timeout : Duration;
  retryDelay : Duration;
  maxRuns : Z;
  continueOnSuccess : bool
}.

(** The defaults given to [flag.Duration], [flag.Uint] and [flag.Bool]. *)
Definition defaultFlags : flags := mkFlags 0 Second 0 false.

Definition timeoutExceeded : error := errorString "timeout exceeded".

(** The cause [signal.NotifyContext] records when the interrupt arrives
    (since Go 1.26; before, the cause was [context.Canceled]). *)
Definition interruptReceived : error :=
  errorString "interrupt signal received".

(** The Runner [main] builds at instant [t] for the command [cmd]:
    the context is cancelled by an interrupt (at [interrupt], if ever)
    and, when [-timeout] is positive, by that timeout. *)
Definition mainRunner {E : Type} (ex : E) (fl : flags) (t : Time)
    (interrupt : option Time) (cmd : string) (cmdargs : list string)
    : Runner E :=
  let ctx := mkContext interrupt Canceled interruptReceived in
  let ctx :=
    if 0 <? timeout fl
    then WithTimeoutCause ctx t (timeout fl) timeoutExceeded
    else ctx in
  let runner := NewRunner ex ctx cmd cmdargs in
  let runner := set_ContinueOnSuccess (continueOnSuccess fl) runner in
  let runner := set_MaxRuns (maxRuns fl) runner in
  set_RetryDelay (retryDelay fl) runner.

End Cli.

(* ================================================================= *)
(** ** Executors that always return, executors that always fail *)

Section Executors.

Context {E : Type} {Ex : Executor E}.

(** The states an executor can be in after some sequence of calls. *)
Inductive reachable : E -> E -> Prop :=
| reach_here (e : E) : reachable e e
| reach_call (e e1 e2 : E) ctx t opts nm ar err took :
    exec_Run e ctx t opts nm ar = Some (err, took, e1) ->
    reachable e1 e2 -> reachable e e2.

(** Every call returns. *)
Definition always_returns (e0 : E) : Prop :=
  forall e, reachable e0 e ->
  forall ctx t opts nm ar, exec_Run e ctx t opts nm ar <> None.

(** Every call returns a failure. *)
Definition always_fails (e0 : E) : Prop :=
  forall e, reachable e0 e ->
  forall ctx t opts nm ar,
    exists err took e', exec_Run e ctx t opts nm ar = Some (Some err, took, e').

End Executors.

(** The retry-delay waits of a run: the delays of all but its first
    [select], most recent first. *)
Definition retry_waits (tr : list event) : list Duration :=
  removelast (delays tr).

(* ================================================================= *)
(** ** Scenarios *)

(** What a test asserts on: the error, the counter, the time elapsed. *)
Definition observed {E : Type} (o : outcome E) : option (option error * Z * Z) :=
  match o with
  | Returns err r w => Some (err, runsCompleted r, now w)
  | NoReturn | OutOfFuel => None
  end.

(** Two fresh worlds: whenever both cases of a [select] are ready, the
    scheduler of the first takes the timer, that of the second the done
    channel. *)
Definition timerFirst : World := startWorld (fun _ => caseTimer).
Definition doneFirst : World := startWorld (fun _ => caseDone).

(** The Runner of the test "simple success". *)
Definition succeedingRunner : Runner mockExecutor :=
  NewRunnerWithExecutor Background (mkMock 0 EmptyString 0).

(** The Runner of the test "fails when exceeds max runs": a command that
    always fails, at most three runs, 10ms between them. *)
Definition failingRunner : Runner mockExecutor :=
  set_RetryDelay (10 * Millisecond)
    (set_MaxRuns 3 (NewRunnerWithExecutor Background (mkMock 0 EmptyString 1))).

(** The same Runner once its three runs are used up. *)
Definition exhaustedRunner : Runner mockExecutor :=
  mkRunner EmptyString [] Background 0 (10 * Millisecond) 3 false
           zeroCommandOpts 3 (mkMock 0 EmptyString 1).

(** The Runner of the test "context deadline exceeded" (an overall
    timeout of 45ms, a failing command every 10ms), ... *)
Definition deadlineRunner : Runner mockExecutor :=
  set_RetryDelay (10 * Millisecond)
    (NewRunnerWithExecutor (WithTimeout Background 0 (45 * Millisecond))
       (mkMock 0 EmptyString 1)).

(** ... and the same Runner after its five attempts, at 40ms. *)
Definition lateRunner : Runner mockExecutor :=
  mkRunner EmptyString [] (WithTimeout Background 0 (45 * Millisecond))
           0 (10 * Millisecond) 0 false zeroCommandOpts 5
           (mkMock 0 EmptyString 1).

Definition lateWorld : World :=
  mkWorld (40 * Millisecond) (fun _ => caseTimer) 5 [].

(** The Runner of the test "process timeout": a command that sleeps
    100ms under a process timeout of 50ms, three runs. *)
Definition timeoutRunner : Runner mockExecutor :=
  set_MaxRuns 3
    (set_ProcessTimeout (50 * Millisecond)
       (NewRunnerWithExecutor Background
          (mkMock (100 * Millisecond) EmptyString 0))).

(** A process timeout of 50ms under an overall timeout of 45ms. *)
Definition timedRunner : Runner mockExecutor :=
  set_ProcessTimeout (50 * Millisecond)
    (NewRunnerWithExecutor (WithTimeout Background 0 (45 * Millisecond))
       (mkMock (100 * Millisecond) EmptyString 0)).

(** A Runner without run limit on the 32-bit arm build, whose command
    fails 2^32 - 1 times before it succeeds. *)
Definition wrappingRunner : Runner countingExecutor :=
  NewRunner (mkCounting 4294967295 0) Background "cmd" [].

(** A Runner without run limit on the 32-bit arm build, with a retry
    delay of 10ms, whose command fails 2^32 times before it succeeds. *)
Definition wrapDelayRunner : Runner countingExecutor :=
  set_RetryDelay (10 * Millisecond)
    (NewRunner (mkCounting 4294967296 0) Background "cmd" []).

(** A Runner whose context was cancelled before [Run] is called. *)
Definition cancelledRunner : Runner mockExecutor :=
  set_RetryDelay (10 * Millisecond)
    (NewRunnerWithExecutor (mkContext (Some 0) Canceled Canceled)
       (mkMock 0 EmptyString 1)).

(** A Runner as [NewRunner] builds it, with a run limit and nothing else
    assigned. *)
Definition plainRunner : Runner mockExecutor :=
  set_MaxRuns 3 (NewRunner (mkMock 0 EmptyString 1) Background "cmd" []).

(** A Runner that keeps going after a success, up to its run limit. *)
Definition continuingRunner : Runner mockExecutor :=
  set_ContinueOnSuccess true
    (set_MaxRuns 3 (NewRunnerWithExecutor Background (mkMock 0 EmptyString 0))).

(* ================================================================= *)
(** ** The Runner's logger (runner.go) and [main] (cmd/wut/main.go) *)

Module Logging.

(** [slog.Level] is an integer; these are its four named values. *)
Definition Level : Type := Z.
Definition LevelDebug : Level := -4.
Definition LevelInfo : Level := 0.
Definition LevelWarn : Level := 4.
Definition LevelError : Level := 8.

(** The attributes the Runner and [main] log. *)

Inductive attr : Type :=
| attrString (key : string) (v : string)
| attrStrings (key : string) (v : list string)
| attrError (key : string) (v : option error)
| attrUint (key : string) (v : Z).

Record logRecord : Type := mkRecord {
  level : Level;
  message : string;
  attrs : list attr
}.

(** A [*slog.Logger], by what its handler answers to [Enabled]: a
    logging call at a level that is not enabled does nothing, a call at
    an enabled level hands its record to the handler's [Handle].  What
    the handler then does with the record is not the Runner's business. *)
Record Logger : Type := mkLogger {
  Enabled : Level -> bool
}.

(** [slog.DiscardHandler]: no level is enabled. *)
Definition DiscardHandler : Logger := mkLogger (fun _ => false).

(** A handler built with [HandlerOptions.Level] set to [min]. *)
Definition levelHandler (min : Level) : Logger :=
  mkLogger (fun l => min <=? l).

(** [slog.NewTextHandler(w, nil)]: the default minimum level is Info. *)
Definition TextHandler : Logger := levelHandler LevelInfo.

(** One logging call: [out] holds the records handed to the handler so
    far, most recent first. *)
Definition emit (lg : Logger) (rec : logRecord) (out : list logRecord)
    : list logRecord :=
  if Enabled lg (level rec) then rec :: out else out.

(** The records of a list that a logger hands to its handler. *)
Definition handed (lg : Logger) (recs : list logRecord) : list logRecord :=
  filter (fun rec => Enabled lg (level rec)) recs.

(** The Runner with its [logger] field. *)
Record LoggingRunner (E : Type) : Type := mkLoggingRunner {
  runner : Runner E;
  logger : Logger
}.

Arguments mkLoggingRunner {E}.
Arguments runner {E}.
Arguments logger {E}.

(** [NewRunner] installs [slog.New(slog.DiscardHandler)]. *)
Definition NewLoggingRunner {E : Type} (ex : E) (ctx : Context) (nm : string)
    (arg : list string) : LoggingRunner E :=
  mkLoggingRunner (NewRunner ex ctx nm arg) DiscardHandler.

(** [SetLogger]: a nil logger stands for the discard logger. *)
Definition SetLogger {E : Type} (lg : option Logger) (lr : LoggingRunner E)
    : LoggingRunner E :=
  match lg with
  | Some l => mkLoggingRunner (runner lr) l
  | None => mkLoggingRunner (runner lr) DiscardHandler
  end.

Definition startingRunner {E : Type} (r : Runner E) : logRecord :=
  mkRecord LevelInfo "Starting runner"
           [attrString "command" (name r); attrStrings "args" (args r)].

Definition runnerStopped (reason : option error) : logRecord :=
  mkRecord LevelWarn "Runner stopped" [attrError "reason" reason].

Definition commandExecuted (err : option error) : logRecord :=
  mkRecord LevelInfo "Command executed" [attrError "error" err].

Definition completedSuccessfully {E : Type} (r : Runner E) : logRecord :=
  mkRecord LevelInfo "Completed successfully"
           [attrString "name" (name r); attrUint "attempts" (runsCompleted r)].

Section LoggedRun.

Variable arch : GOARCH.
Context {E : Type} {Ex : Executor E}.

(** The [for] loop of [Run], with its logging calls. *)
Fixpoint loopLogged (fuel : nat) (lg : Logger) (r : Runner E) (w : World)
    (out : list logRecord) : outcome E * list logRecord :=
  match fuel with
  | O => (OutOfFuel, out)
  | S fuel' =>
      match awaitNext r w with
      | (caseDone, w1) =>
          let cause := Cause (baseCtx r) (now w1) in
          (Returns cause r w1, emit lg (runnerStopped cause) out)
      | (caseTimer, w1) =>
          if (0 <? MaxRuns r) && (MaxRuns r <=? runsCompleted r)
          then (Returns (Some errMaxRunsCompleted) r w1,
                emit lg (runnerStopped (Some errMaxRunsCompleted)) out)
          else
            match executeCommand arch r w1 with
            | None => (NoReturn, out)
            | Some (err, r2, w2) =>
                let out1 := emit lg (commandExecuted err) out in
                match err with
                | None =>
                    if negb (ContinueOnSuccess r2)
                    then (Returns None r2 w2,
                          emit lg (completedSuccessfully r2) out1)
                    else loopLogged fuel' lg r2 w2 out1
                | Some _ => loopLogged fuel' lg r2 w2 out1
                end
            end
      end
  end.

(** [Run], with its logging calls: the result of the run and the records
    written, most recent first. *)
Definition RunLogged (fuel : nat) (lr : LoggingRunner E) (w : World)
    : outcome E * list logRecord :=
  loopLogged fuel (logger lr) (runner lr) w
             (emit (logger lr) (startingRunner (runner lr)) []).

End LoggedRun.

(** How many records carry a given message. *)
Fixpoint count_message (msg : string) (out : list logRecord) : nat :=
  match out with
  | [] => O
  | rec :: out' =>
      if String.eqb (message rec) msg then S (count_message msg out')
      else count_message msg out'
  end.

End Logging.

Export Logging.

Module Main.

Definition runnerError (err : error) : logRecord :=
  mkRecord LevelError "Runner encountered an error"
           [attrError "error" (Some err)].

(** [main], from the parsed flags [fl] and the positional arguments: the
    exit code of the process and the records its logger wrote to the
    standard error stream, most recent first.  Without a command the
    usage is printed and the exit code is 125.  [None]: the Runner has not
    returned within the fuel. *)
Definition main (arch : GOARCH) {E : Type} {Ex : Executor E} (fuel : nat)
    (ex : E) (fl : Cli.flags) (positional : list string)
    (interrupt : option Time) (w : World) : option (Z * list logRecord) :=
  match positional with
  | [] => Some (125, [])
  | cmd :: cmdargs =>
      let runner :=
        mkLoggingRunner (Cli.mainRunner ex fl (now w) interrupt cmd cmdargs)
                        DiscardHandler in
      let runner := SetLogger (Some TextHandler) runner in
      match RunLogged arch fuel runner w with
      | (Returns (Some err) _ _, out) =>
          Some (1, emit TextHandler (runnerError err) out)
      | (Returns None _ _, out) => Some (0, out)
      | (NoReturn, _) | (OutOfFuel, _) => None
      end
  end.

End Main.

(* ================================================================= *)
(** ** Predicates on executors and traces used by the statements *)

(** The executor fails on its next [k] calls and succeeds on the call
    after them, whatever it is called with. *)
Fixpoint succeeds_after {E : Type} {Ex : Executor E} (k : nat) (e : E) : Prop :=
  match k with
  | O =>
      forall ctx t opts nm ar,
        exists took e', exec_Run e ctx t opts nm ar = Some (None, took, e')
  | S k' =>
      forall ctx t opts nm ar,
        exists err took e',
          exec_Run e ctx t opts nm ar = Some (Some err, took, e')
          /\ succeeds_after k' e'
  end.

(** The Runner's configuration: every field but the counter and the
    executor. *)
Definition same_config {E : Type} (r r' : Runner E) : Prop :=
  name r' = name r /\ args r' = args r /\ baseCtx r' = baseCtx r
  /\ ProcessTimeout r' = ProcessTimeout r /\ RetryDelay r' = RetryDelay r
  /\ MaxRuns r' = MaxRuns r /\ ContinueOnSuccess r' = ContinueOnSuccess r
  /\ CommandOptions r' = CommandOptions r.

(** The attempts recorded in a trace: scope, start and finish of each. *)
Fixpoint attempts (tr : list event) : list (Context * Time * Time) :=
  match tr with
  | [] => []
  | evExec scope start finish _ :: tr' => (scope, start, finish) :: attempts tr'
  | evSelect _ _ _ :: tr' => attempts tr'
  end.

(** The results of the executor calls recorded in a trace, most recent
    first. *)
Fixpoint results (tr : list event) : list (option error) :=
  match tr with
  | [] => []
  | evExec _ _ _ res :: tr' => res :: results tr'
  | evSelect _ _ _ :: tr' => results tr'
  end.

(** The record [Run] writes just before it returns. *)
Definition finalRecord {E : Type} (err : option error) (r : Runner E)
    : logRecord :=
  match err with
  | Some _ => runnerStopped err
  | None => completedSuccessfully r
  end.

(** The flags of [wut -retry-delay=0.25s], as in the script
    testdata/retries.txtar, whose command fails three times before it
    succeeds. *)
Definition retryFlags : Cli.flags :=
  Cli.mkFlags 0 (250 * Millisecond) 0 false.

(** The flags of [wut -timeout=45ms -retry-delay=10ms]. *)
Definition timeoutFlags : Cli.flags :=
  Cli.mkFlags (45 * Millisecond) (10 * Millisecond) 0 false.

(* ================================================================= *)
(** ** Facts about the runtime model *)

Lemma uint_modulus_pos (a : GOARCH) : 0 < uint_modulus a.
Proof. destruct a; reflexivity. Qed.

Lemma uint_incr_small (a : GOARCH) (x : Z) :
  0 <= x -> x + 1 < uint_modulus a -> uint_incr a x = x + 1.
Proof. intros H0 H1. unfold uint_incr. apply Z.mod_small. lia. Qed.

Lemma uint_incr_range (a : GOARCH) (x : Z) : is_uint a (uint_incr a x).
Proof.
  unfold is_uint, uint_incr. apply Z.mod_pos_bound, uint_modulus_pos.
Qed.

Lemma select_caseDone_Done ctx t d pick t' :
  select_ ctx t d pick = (caseDone, t') -> Done ctx t' = true.
Proof.
  unfold select_, Done. destruct (done_at ctx) as [dn|].
  - destruct (Z.compare_spec (Z.max t dn) (t + Z.max 0 d)) as [Heq|Hlt|Hgt];
      intros H; inversion H; subst; apply Z.leb_le; lia.
  - discriminate.
Qed.

Lemma select_time_mono ctx t d pick c t' :
  select_ ctx t d pick = (c, t') -> t <= t'.
Proof.
  unfold select_. destruct (done_at ctx) as [dn|].
  - destruct (Z.compare_spec (Z.max t dn) (t + Z.max 0 d)) as [Heq|Hlt|Hgt];
      intros H; inversion H; subst; lia.
  - intros H; inversion H; subst; lia.
Qed.

Lemma select_never_done ctx t d pick :
  done_at ctx = None -> select_ ctx t d pick = (caseTimer, t + Z.max 0 d).
Proof. intros H. unfold select_. now rewrite H. Qed.

(** A context that is already done beats a timer that still has to run. *)
Lemma select_done_first ctx t d pick :
  Done ctx t = true -> 0 < d -> select_ ctx t d pick = (caseDone, t).
Proof.
  unfold Done, select_. destruct (done_at ctx) as [dn|]; [|discriminate].
  intros Hd Hpos. apply Z.leb_le in Hd.
  replace (Z.max t dn) with t by lia.
  destruct (Z.compare_spec t (t + Z.max 0 d)) as [Heq|Hlt|Hgt]; try lia.
  reflexivity.
Qed.

(** With no delay to wait for, both cases are ready: the choice is the
    scheduler's. *)
Lemma select_done_tie ctx t d pick :
  Done ctx t = true -> d <= 0 -> select_ ctx t d pick = (pick, t).
Proof.
  unfold Done, select_. destruct (done_at ctx) as [dn|]; [|discriminate].
  intros Hd Hle. apply Z.leb_le in Hd.
  replace (Z.max t dn) with t by lia.
  replace (t + Z.max 0 d) with t by lia.
  now rewrite Z.compare_refl.
Qed.

Lemma Done_WithTimeout parent t d u :
  Done (WithTimeout parent t d) u = Done parent u || (t + d <=? u).
Proof.
  unfold WithTimeout, WithTimeoutCause, Done.
  destruct (done_at parent) as [p|] eqn:Hp.
  - destruct (Z.leb_spec p (t + d)) as [Hle|Hgt]; simpl; try rewrite Hp;
      destruct (Z.leb_spec p u); destruct (Z.leb_spec (t + d) u);
      simpl; try reflexivity; lia.
  - reflexivity.
Qed.

(* ================================================================= *)
(** ** Facts about one iteration of the loop *)

Section Iteration.

Variable arch : GOARCH.
Context {E : Type} {Ex : Executor E}.

Lemma executeCommand_inv (r : Runner E) (w : World) err r2 w2 :
  executeCommand arch r w = Some (err, r2, w2) ->
  exists took ex',
    exec_Run (executor r) (attemptScope r (now w)) (now w)
             (CommandOptions r) (name r) (args r) = Some (err, took, ex')
    /\ r2 = mkRunner (name r) (args r) (baseCtx r) (ProcessTimeout r)
                     (RetryDelay r) (MaxRuns r) (ContinueOnSuccess r)
                     (CommandOptions r) (uint_incr arch (runsCompleted r)) ex'
    /\ w2 = mkWorld (now w + Z.max 0 took) (sched w) (selects w)
                    (evExec (attemptScope r (now w)) (now w)
                            (now w + Z.max 0 took) err :: trace w).
Proof.
  unfold executeCommand.
  destruct (exec_Run _ _ _ _ _ _) as [[[err0 took] ex']|]; [|discriminate].
  intros H. inversion H; subst. exists took, ex'. repeat split; reflexivity.
Qed.

Lemma awaitNext_inv (r : Runner E) (w : World) won w1 :
  awaitNext r w = (won, w1) ->
  select_ (baseCtx r) (now w) (nextExecDelay r) (sched w (selects w))
    = (won, now w1)
  /\ w1 = mkWorld (now w1) (sched w) (S (selects w))
                  (evSelect (nextExecDelay r) won (now w1) :: trace w).
Proof.
  unfold awaitNext.
  destruct (select_ _ _ _ _) as [c t]. intros H. inversion H; subst.
  split; reflexivity.
Qed.

(** The loop goes round again only after an attempt. *)
Lemma iteration_Continue (r : Runner E) (w : World) r2 w2 :
  iteration arch r w = Continue r2 w2 ->
  exists w1 err,
    awaitNext r w = (caseTimer, w1)
    /\ (0 <? MaxRuns r) && (MaxRuns r <=? runsCompleted r) = false
    /\ executeCommand arch r w1 = Some (err, r2, w2)
    /\ (err <> None \/ ContinueOnSuccess r = true).
Proof.
  unfold iteration. destruct (awaitNext r w) as [[|] w1]; [discriminate|].
  destruct ((0 <? MaxRuns r) && (MaxRuns r <=? runsCompleted r));
    [discriminate|].
  destruct (executeCommand arch r w1) as [[[err r3] w3]|] eqn:Hx;
    [|discriminate].
  pose proof (executeCommand_inv _ _ _ _ _ Hx) as (took & ex' & _ & Hr & _).
  assert (Hc : ContinueOnSuccess r3 = ContinueOnSuccess r) by (now subst r3).
  destruct err as [e|].
  - intros H; inversion H; subst r2 w2. exists w1, (Some e).
    repeat split; auto. left; discriminate.
  - rewrite Hc. destruct (ContinueOnSuccess r) eqn:Hcs; simpl;
      intros H; inversion H; subst r2 w2.
    exists w1, None. repeat split; auto.
Qed.

(** The three ways out of the loop. *)
Lemma iteration_Return (r : Runner E) (w : World) err r' w' :
  iteration arch r w = Return err r' w' ->
  (awaitNext r w = (caseDone, w') /\ r' = r
   /\ err = Some (done_cause (baseCtx r)))
  \/ (awaitNext r w = (caseTimer, w') /\ r' = r
      /\ 0 < MaxRuns r <= runsCompleted r
      /\ err = Some errMaxRunsCompleted)
  \/ (exists w1, awaitNext r w = (caseTimer, w1)
      /\ (0 <? MaxRuns r) && (MaxRuns r <=? runsCompleted r) = false
      /\ executeCommand arch r w1 = Some (None, r', w')
      /\ ContinueOnSuccess r = false /\ err = None).
Proof.
  unfold iteration. destruct (awaitNext r w) as [[|] w1] eqn:Ha.
  - intros H; inversion H; subst. left. repeat split.
    apply awaitNext_inv in Ha. destruct Ha as [Hs _].
    apply select_caseDone_Done in Hs. unfold Cause. now rewrite Hs.
  - destruct ((0 <? MaxRuns r) && (MaxRuns r <=? runsCompleted r)) eqn:Hm.
    + intros H; inversion H; subst. right; left. repeat split; auto.
      all: apply andb_true_iff in Hm; destruct Hm as [H1 H2];
        apply Z.ltb_lt in H1; apply Z.leb_le in H2; lia.
    + destruct (executeCommand arch r w1) as [[[err0 r3] w3]|] eqn:Hx;
        [|discriminate].
      pose proof (executeCommand_inv _ _ _ _ _ Hx) as (took & ex' & _ & Hr & _).
      assert (Hc : ContinueOnSuccess r3 = ContinueOnSuccess r) by (now subst r3).
      destruct err0 as [e|]; [discriminate|].
      rewrite Hc. destruct (ContinueOnSuccess r) eqn:Hcs; simpl;
        [discriminate|].
      intros H; inversion H; subst. right; right. exists w1.
      repeat split; auto.
Qed.

End Iteration.

(* ================================================================= *)
(** ** Facts about whole runs *)

Section Runs.

Variable arch : GOARCH.
Context {E : Type} {Ex : Executor E}.

Lemma always_returns_next (e e1 : E) ctx t opts nm ar err took :
  always_returns e ->
  exec_Run e ctx t opts nm ar = Some (err, took, e1) ->
  always_returns e1.
Proof.
  intros Ha Hx e2 Hr. apply Ha. eapply reach_call; eauto.
Qed.

Lemma always_fails_next (e e1 : E) ctx t opts nm ar err took :
  always_fails e ->
  exec_Run e ctx t opts nm ar = Some (err, took, e1) ->
  always_fails e1.
Proof.
  intros Ha Hx e2 Hr. apply Ha. eapply reach_call; eauto.
Qed.

Lemma always_fails_returns (e : E) : always_fails e -> always_returns e.
Proof.
  intros Ha e1 Hr ctx t opts nm ar.
  destruct (Ha e1 Hr ctx t opts nm ar) as (err & took & e' & Hx).
  rewrite Hx. discriminate.
Qed.

(** More fuel never changes the result of a run that returned. *)
Lemma Run_fuel_mono (fuel : nat) :
  forall (r : Runner E) (w : World) err r' w',
    Run arch fuel r w = Returns err r' w' ->
    forall extra, Run arch (fuel + extra) r w = Returns err r' w'.
Proof.
  induction fuel as [|fuel IH]; simpl; intros r w err r' w' H extra.
  - discriminate.
  - destruct (iteration arch r w) as [e0 r0 w0|r0 w0|]; auto.
Qed.

(** Waiting at the head of the loop calls no executor. *)
Lemma awaitNext_invocations (r : Runner E) (w : World) won w1 :
  awaitNext r w = (won, w1) ->
  invocations (trace w1) = invocations (trace w).
Proof.
  intros H. apply awaitNext_inv in H. destruct H as [_ Hw].
  rewrite Hw. reflexivity.
Qed.

(** An attempt calls the executor once and counts once. *)
Lemma executeCommand_counts (r : Runner E) (w : World) err r2 w2 :
  executeCommand arch r w = Some (err, r2, w2) ->
  invocations (trace w2) = S (invocations (trace w))
  /\ runsCompleted r2 = uint_incr arch (runsCompleted r)
  /\ MaxRuns r2 = MaxRuns r.
Proof.
  intros H. apply executeCommand_inv in H.
  destruct H as (took & ex' & _ & Hr & Hw). subst r2 w2. simpl. auto.
Qed.

(** The counter follows the number of executor calls, modulo the width
    of [uint]. *)
Lemma Run_counts (fuel : nat) :
  forall (r : Runner E) (w : World) err r' w',
    is_uint arch (runsCompleted r) ->
    Run arch fuel r w = Returns err r' w' ->
    exists k : nat,
      invocations (trace w') = (invocations (trace w) + k)%nat
      /\ runsCompleted r' = (runsCompleted r + Z.of_nat k) mod uint_modulus arch.
Proof.
  induction fuel as [|fuel IH]; simpl; intros r w err r' w' Hu H.
  - discriminate.
  - destruct (iteration arch r w) as [e0 r0 w0|r0 w0|] eqn:Hit;
      [| |discriminate].
    + inversion H; subst e0 r0 w0. clear H.
      apply iteration_Return in Hit.
      destruct Hit as [(Ha & Hr & _)|[(Ha & Hr & _)|(w1 & Ha & _ & Hx & _)]].
      * exists O. subst r'. rewrite (awaitNext_invocations _ _ _ _ Ha).
        split; [lia|]. rewrite Z.add_0_r. symmetry. now apply Z.mod_small.
      * exists O. subst r'. rewrite (awaitNext_invocations _ _ _ _ Ha).
        split; [lia|]. rewrite Z.add_0_r. symmetry. now apply Z.mod_small.
      * exists 1%nat. apply executeCommand_counts in Hx.
        destruct Hx as (Hi & Hc & _).
        rewrite Hi, (awaitNext_invocations _ _ _ _ Ha). split; [lia|].
        exact Hc.
    + apply iteration_Continue in Hit.
      destruct Hit as (w1 & e1 & Ha & _ & Hx & _).
      apply executeCommand_counts in Hx. destruct Hx as (Hi & Hc & _).
      destruct (IH r0 w0 err r' w') as (k & Hk1 & Hk2); auto.
      { rewrite Hc. apply uint_incr_range. }
      exists (S k). rewrite Hk1, Hi, (awaitNext_invocations _ _ _ _ Ha).
      split; [lia|]. rewrite Hk2, Hc. unfold uint_incr.
      rewrite Zplus_mod_idemp_l. f_equal. lia.
Qed.

(** With a run limit the counter never passes the limit, so it never
    wraps and counts the executor calls exactly. *)
Lemma Run_counts_bounded (fuel : nat) :
  forall (r : Runner E) (w : World) err r' w',
    0 < MaxRuns r -> is_uint arch (MaxRuns r) ->
    0 <= runsCompleted r <= MaxRuns r ->
    Run arch fuel r w = Returns err r' w' ->
    exists k : nat,
      invocations (trace w') = (invocations (trace w) + k)%nat
      /\ runsCompleted r' = runsCompleted r + Z.of_nat k
      /\ runsCompleted r' <= MaxRuns r.
Proof.
  induction fuel as [|fuel IH]; simpl; intros r w err r' w' Hpos Hu Hrc H.
  - discriminate.
  - destruct (iteration arch r w) as [e0 r0 w0|r0 w0|] eqn:Hit;
      [| |discriminate].
    + inversion H; subst e0 r0 w0. clear H.
      apply iteration_Return in Hit.
      destruct Hit as [(Ha & Hr & _)|[(Ha & Hr & _)|(w1 & Ha & Hm & Hx & _)]].
      * exists O. subst r'. rewrite (awaitNext_invocations _ _ _ _ Ha). lia.
      * exists O. subst r'. rewrite (awaitNext_invocations _ _ _ _ Ha). lia.
      * exists 1%nat. apply executeCommand_counts in Hx.
        destruct Hx as (Hi & Hc & _).
        rewrite Hi, (awaitNext_invocations _ _ _ _ Ha), Hc.
        apply andb_false_iff in Hm. rewrite Z.ltb_ge, Z.leb_gt in Hm.
        unfold is_uint in Hu.
        rewrite uint_incr_small by lia. lia.
    + apply iteration_Continue in Hit.
      destruct Hit as (w1 & e1 & Ha & Hm & Hx & _).
      apply executeCommand_counts in Hx. destruct Hx as (Hi & Hc & HM).
      apply andb_false_iff in Hm. rewrite Z.ltb_ge, Z.leb_gt in Hm.
      unfold is_uint in Hu.
      rewrite uint_incr_small in Hc by lia.
      destruct (IH r0 w0 err r' w') as (k & Hk1 & Hk2 & Hk3); auto.
      { now rewrite HM. } { now rewrite HM. } { rewrite HM, Hc. lia. }
      exists (S k). rewrite Hk1, Hi, (awaitNext_invocations _ _ _ _ Ha).
      rewrite HM in Hk3. lia.
Qed.

(** With a run limit and an executor that always returns, the loop
    returns within (limit - counter + 1) iterations. *)
Lemma Run_bounded_returns (n : nat) :
  forall (r : Runner E) (w : World),
    0 < MaxRuns r -> is_uint arch (MaxRuns r) ->
    0 <= runsCompleted r ->
    MaxRuns r - runsCompleted r <= Z.of_nat n ->
    always_returns (executor r) ->
    exists err r' w', Run arch (S n) r w = Returns err r' w'.
Proof.
  induction n as [|n IH]; intros r w Hpos Hu Hrc Hn Hret.
  - simpl. unfold iteration.
    destruct (awaitNext r w) as [[|] w1]; [eauto|].
    replace ((0 <? MaxRuns r) && (MaxRuns r <=? runsCompleted r)) with true.
    + eauto.
    + symmetry. apply andb_true_iff. rewrite Z.ltb_lt, Z.leb_le. lia.
  - cbn [Run]. destruct (iteration arch r w) as [e0 r0 w0|r0 w0|] eqn:Hit.
    + eauto.
    + apply iteration_Continue in Hit.
      destruct Hit as (w1 & e1 & Ha & Hm & Hx & _).
      pose proof (executeCommand_counts _ _ _ _ _ Hx) as (_ & Hc & HM).
      apply executeCommand_inv in Hx.
      destruct Hx as (took & ex' & Hex & Hr0 & _).
      apply andb_false_iff in Hm. rewrite Z.ltb_ge, Z.leb_gt in Hm.
      unfold is_uint in Hu. rewrite uint_incr_small in Hc by lia.
      apply IH.
      * now rewrite HM.
      * now rewrite HM.
      * lia.
      * rewrite HM, Hc. lia.
      * subst r0. simpl. eapply always_returns_next; eauto.
    + exfalso. unfold iteration in Hit.
      destruct (awaitNext r w) as [[|] w1]; [discriminate|].
      destruct ((0 <? MaxRuns r) && (MaxRuns r <=? runsCompleted r));
        [discriminate|].
      unfold executeCommand in Hit.
      destruct (exec_Run (executor r) (attemptScope r (now w1)) (now w1)
                  (CommandOptions r) (name r) (args r))
        as [[[e1 took] ex']|] eqn:Hex.
      * destruct e1; [discriminate|].
        cbn in Hit. destruct (ContinueOnSuccess r); discriminate.
      * eapply Hret; [apply reach_here|exact Hex].
Qed.

End Runs.

Section FailingRuns.

Variable arch : GOARCH.
Context {E : Type} {Ex : Executor E}.

(** The run of a Runner with a run limit, an executor that always fails
    and a context that is never done: what is left of the limit is used
    up, one attempt per iteration, and one more iteration finds the limit
    reached.  Each of these iterations waits first. *)
Lemma Run_always_failing (n : nat) :
  forall (r : Runner E) (w : World),
    done_at (baseCtx r) = None ->
    always_fails (executor r) ->
    0 < MaxRuns r -> is_uint arch (MaxRuns r) ->
    0 <= runsCompleted r ->
    MaxRuns r - runsCompleted r = Z.of_nat n ->
    exists r' w',
      Run arch (S n) r w = Returns (Some errMaxRunsCompleted) r' w'
      /\ runsCompleted r' = MaxRuns r
      /\ invocations (trace w') = (invocations (trace w) + n)%nat
      /\ delays (trace w')
         = repeat (RetryDelay r) n ++ nextExecDelay r :: delays (trace w)
      /\ now w' = now w + Z.max 0 (nextExecDelay r)
                  + Z.of_nat n * Z.max 0 (RetryDelay r)
                  + (exec_time (trace w') - exec_time (trace w))
      /\ exec_time (trace w) <= exec_time (trace w').
Proof.
  induction n as [|n IH]; intros r w Hnd Hf Hpos Hu Hrc Hn.
  - assert (Hm : (0 <? MaxRuns r) && (MaxRuns r <=? runsCompleted r) = true).
    { apply andb_true_iff. rewrite Z.ltb_lt, Z.leb_le. lia. }
    cbn [Run]. unfold iteration, awaitNext.
    rewrite select_never_done by assumption. rewrite Hm.
    eexists; eexists. split; [reflexivity|]. cbn. repeat split; lia.
  - assert (Hm : (0 <? MaxRuns r) && (MaxRuns r <=? runsCompleted r) = false).
    { apply andb_false_iff. rewrite Z.ltb_ge, Z.leb_gt. lia. }
    set (t1 := now w + Z.max 0 (nextExecDelay r)).
    destruct (Hf (executor r) (reach_here _) (attemptScope r t1) t1
                 (CommandOptions r) (name r) (args r))
      as (e & took & ex' & Hex).
    set (r2 := mkRunner (name r) (args r) (baseCtx r) (ProcessTimeout r)
                 (RetryDelay r) (MaxRuns r) (ContinueOnSuccess r)
                 (CommandOptions r) (uint_incr arch (runsCompleted r)) ex').
    set (w2 := mkWorld (t1 + Z.max 0 took) (sched w) (S (selects w))
                 (evExec (attemptScope r t1) t1 (t1 + Z.max 0 took) (Some e)
                    :: evSelect (nextExecDelay r) caseTimer t1 :: trace w)).
    assert (Hit : iteration arch r w = Continue r2 w2).
    { unfold iteration, awaitNext.
      rewrite select_never_done by assumption. rewrite Hm.
      unfold executeCommand. cbn [now]. fold t1. rewrite Hex. reflexivity. }
    assert (Hc : runsCompleted r2 = runsCompleted r + 1).
    { unfold r2; cbn [runsCompleted]. unfold is_uint in Hu.
      apply uint_incr_small; lia. }
    assert (Hd : nextExecDelay r2 = RetryDelay r).
    { unfold nextExecDelay. rewrite Hc. cbn [RetryDelay r2].
      destruct (Z.eqb_spec (runsCompleted r + 1) 0); [lia|reflexivity]. }
    destruct (IH r2 w2) as (r' & w' & HR & H1 & H2 & H3 & H4 & H5); auto.
    { unfold r2; cbn. eapply always_fails_next; eauto. }
    { lia. }
    { cbn [MaxRuns r2]. lia. }
    exists r', w'. cbn [Run]. rewrite Hit. split; [exact HR|].
    rewrite Hd in H3, H4. cbn in H1, H2, H3, H4, H5.
    split; [exact H1|]. split; [lia|]. split.
    + rewrite H3. cbn [repeat]. rewrite (repeat_cons n (RetryDelay r)).
      rewrite <- app_assoc. reflexivity.
    + rewrite Nat2Z.inj_succ, Z.mul_succ_l.
      unfold t1 in H4, H5.
      remember (Z.max 0 (RetryDelay r)) as mr.
      remember (Z.max 0 took) as mt.
      remember (Z.of_nat n * mr) as nm.
      assert (0 <= mt) by lia.
      split; lia.
Qed.

End FailingRuns.

(* ================================================================= *)
(** ** Facts about the test doubles *)

Lemma mock_reachable (pick : selected) (me e : mockExecutor) :
  reachable (Ex := mock_Executor pick) me e -> e = me.
Proof.
  induction 1 as [e|e e1 e2 ctx t opts nm ar err took Hx _ IH].
  - reflexivity.
  - rewrite IH. clear IH.
    unfold exec_Run, mock_Executor, mockExecutor_Run in Hx.
    destruct (select_ ctx t (sleep e) pick) as [[|] t'].
    + now inversion Hx.
    + destruct (String.eqb (output e) EmptyString); [now inversion Hx|].
      destruct (Stdout opts) as [wr|]; [|discriminate].
      destruct (wr (output e)); now inversion Hx.
Qed.

(** A mock that prints nothing and exits non-zero fails on every call:
    with its exit code, or with the error of its scope. *)
Lemma mock_always_fails (pick : selected) (me : mockExecutor) :
  output me = EmptyString -> exitcode me <> 0 ->
  always_fails (Ex := mock_Executor pick) me.
Proof.
  intros Hout Hexit e Hr ctx t opts nm ar.
  apply mock_reachable in Hr. subst e.
  unfold exec_Run, mock_Executor, mockExecutor_Run.
  destruct (select_ ctx t (sleep me) pick) as [[|] t'] eqn:Hs.
  - apply select_caseDone_Done in Hs. unfold Err. rewrite Hs. eauto.
  - rewrite Hout. cbn [String.eqb].
    destruct (Z.eqb_spec (exitcode me) 0); [contradiction|]. eauto.
Qed.

(** A mock that prints nothing always returns. *)
Lemma mock_always_returns (pick : selected) (me : mockExecutor) :
  output me = EmptyString ->
  always_returns (Ex := mock_Executor pick) me.
Proof.
  intros Hout e Hr ctx t opts nm ar.
  apply mock_reachable in Hr. subst e.
  unfold exec_Run, mock_Executor, mockExecutor_Run.
  destruct (select_ ctx t (sleep me) pick) as [[|] t']; [discriminate|].
  rewrite Hout. cbn [String.eqb]. discriminate.
Qed.

(** The counting double used on a Runner without run limit, under a
    context that is never done: the run returns success with the first
    call that succeeds. *)
Lemma Run_counting (arch : GOARCH) (k : nat) :
  forall (r : Runner countingExecutor) (w : World),
    done_at (baseCtx r) = None ->
    MaxRuns r = 0 ->
    ContinueOnSuccess r = false ->
    failures (executor r) - calls (executor r) = Z.of_nat k ->
    exists r' w',
      Run arch (S k) r w = Returns None r' w'
      /\ invocations (trace w') = (invocations (trace w) + S k)%nat.
Proof.
  induction k as [|k IH]; intros r w Hnd Hmax Hcs Hk.
  - cbn [Run]. unfold iteration, awaitNext.
    rewrite select_never_done by assumption. rewrite Hmax.
    cbn [Z.ltb Z.compare andb].
    unfold executeCommand, exec_Run, counting_Executor, countingExecutor_Run.
    destruct (Z.leb_spec (calls (executor r) + 1) (failures (executor r)));
      [lia|].
    cbn. rewrite Hcs. cbn. eexists; eexists. split; [reflexivity|].
    cbn. lia.
  - set (t1 := now w + Z.max 0 (nextExecDelay r)).
    set (r2 := mkRunner (name r) (args r) (baseCtx r) (ProcessTimeout r)
                 (RetryDelay r) (MaxRuns r) (ContinueOnSuccess r)
                 (CommandOptions r) (uint_incr arch (runsCompleted r))
                 (mkCounting (failures (executor r))
                             (calls (executor r) + 1))).
    set (w2 := mkWorld (t1 + Z.max 0 0) (sched w) (S (selects w))
                 (evExec (attemptScope r t1) t1 (t1 + Z.max 0 0)
                    (Some (mockFailure (calls (executor r) + 1)))
                    :: evSelect (nextExecDelay r) caseTimer t1 :: trace w)).
    assert (Hit : iteration arch r w = Continue r2 w2).
    { unfold iteration, awaitNext.
      rewrite select_never_done by assumption. rewrite Hmax.
      cbn [Z.ltb Z.compare andb].
      unfold executeCommand, exec_Run, counting_Executor, countingExecutor_Run.
      destruct (Z.leb_spec (calls (executor r) + 1) (failures (executor r)));
        [|lia].
      reflexivity. }
    destruct (IH r2 w2) as (r' & w' & HR & HI); auto.
    { unfold r2; cbn. lia. }
    exists r', w'. cbn [Run]. rewrite Hit. split; [exact HR|].
    rewrite HI. unfold w2; cbn. lia.
Qed.

(* ================================================================= *)
(** ** The scenarios of the repository's tests (runner_test.go) *)

(** "simple success" *)
Example test_simple_success :
  observed (Run (Ex := mock_Executor caseTimer) amd64 8
              succeedingRunner timerFirst)
  = Some (None, 1, 0).
Proof. reflexivity. Qed.

(** "context deadline exceeded" *)
Example test_context_deadline_exceeded :
  observed (Run (Ex := mock_Executor caseTimer) amd64 8
              deadlineRunner timerFirst)
  = Some (Some DeadlineExceeded, 5, 45 * Millisecond).
Proof. reflexivity. Qed.

(** "process timeout" *)
Example test_process_timeout :
  observed (Run (Ex := mock_Executor caseTimer) amd64 8
              timeoutRunner timerFirst)
  = Some (Some errMaxRunsCompleted, 3, 3 * (50 * Millisecond)).
Proof. reflexivity. Qed.

(* ================================================================= *)
(** ** The properties of the Runner *)

(** An error built by [errors.New] matches nothing but itself. *)
Lemma errors_Is_errorString (s : string) (target : error) :
  target <> errorString s -> errors_Is (errorString s) target = false.
Proof.
  intros Hne. destruct target as [s'| | |m e];
    cbn [errors_Is error_eqb]; try reflexivity.
  rewrite orb_false_r. apply String.eqb_neq. congruence.
Qed.

Lemma is_uint_3 (a : GOARCH) : is_uint a 3.
Proof. destruct a; unfold is_uint, uint_modulus; cbn; lia. Qed.

(** C1.  For every run limit [MaxRuns = N > 0], an executor whose every
    call returns a failure and an overall context that is never done,
    [Run] returns (given enough fuel, and then whatever more fuel it
    gets) the sentinel [errMaxRunsCompleted], and [runsCompleted] is
    exactly [N] at that point.  The sentinel has nothing to unwrap: it
    does not match the context's cause. *)
Theorem Run_exhausted_when_always_failing
    (arch : GOARCH) {E : Type} {Ex : Executor E}
    (r : Runner E) (w : World) (N : Z) :
  0 < N -> is_uint arch N ->
  MaxRuns r = N -> runsCompleted r = 0 ->
  always_fails (executor r) ->
  done_at (baseCtx r) = None ->
  exists fuel r' w',
    (forall extra,
        Run arch (fuel + extra) r w = Returns (Some errMaxRunsCompleted) r' w')
    /\ runsCompleted r' = N
    /\ Unwrap errMaxRunsCompleted = None
    /\ (done_cause (baseCtx r) <> errMaxRunsCompleted ->
        errors_Is errMaxRunsCompleted (done_cause (baseCtx r)) = false).
Proof.
  intros Hpos Hu HN Hrc Hf Hnd.
  destruct (Run_always_failing arch (Z.to_nat N) r w)
    as (r' & w' & HR & H1 & _); try rewrite HN; auto; try lia.
  exists (S (Z.to_nat N)), r', w'. split; [|split; [|split]].
  - intros extra. now apply Run_fuel_mono.
  - lia.
  - reflexivity.
  - apply errors_Is_errorString.
Qed.

Lemma Run_exhausted_when_always_failing_witness :
  always_fails (Ex := mock_Executor caseTimer) (executor failingRunner)
  /\ exists fuel r' w',
       (forall extra,
           Run (Ex := mock_Executor caseTimer) arm64 (fuel + extra)
               failingRunner doneFirst
           = Returns (Some errMaxRunsCompleted) r' w')
       /\ runsCompleted r' = 3
       /\ Unwrap errMaxRunsCompleted = None
       /\ (done_cause (baseCtx failingRunner) <> errMaxRunsCompleted ->
           errors_Is errMaxRunsCompleted (done_cause (baseCtx failingRunner))
           = false).
Proof.
  assert (Hf : always_fails (Ex := mock_Executor caseTimer)
                 (executor failingRunner)).
  { apply mock_always_fails; [reflexivity|discriminate]. }
  split; [exact Hf|].
  apply (Run_exhausted_when_always_failing arm64 (Ex := mock_Executor caseTimer)
           failingRunner doneFirst 3).
  - lia.
  - apply is_uint_3.
  - reflexivity.
  - reflexivity.
  - exact Hf.
  - reflexivity.
Defined.

(** C2.  Whenever the [select] at the head of the loop takes the case of
    the context's done channel, [Run] returns in that very iteration:
    its result is the cause recorded by the base context (which
    [context.Cause] reports at that instant), the Runner is as it was,
    and the executor has not been called again. *)
Theorem Run_returns_cause_when_done_wins
    (arch : GOARCH) {E : Type} {Ex : Executor E}
    (r : Runner E) (w : World) (fuel : nat) :
  fst (awaitNext r w) = caseDone ->
  exists w',
    Run arch (S fuel) r w = Returns (Some (done_cause (baseCtx r))) r w'
    /\ w' = snd (awaitNext r w)
    /\ Cause (baseCtx r) (now w') = Some (done_cause (baseCtx r))
    /\ invocations (trace w') = invocations (trace w).
Proof.
  intros Hd. destruct (awaitNext r w) as [won w1] eqn:Ha.
  cbn in Hd. subst won. exists w1.
  assert (HC : Cause (baseCtx r) (now w1) = Some (done_cause (baseCtx r))).
  { pose proof (awaitNext_inv _ _ _ _ Ha) as [Hs _].
    apply select_caseDone_Done in Hs. unfold Cause. now rewrite Hs. }
  split; [|split; [reflexivity|split; [exact HC|]]].
  - cbn [Run]. unfold iteration. rewrite Ha, HC. reflexivity.
  - eapply awaitNext_invocations; eauto.
Qed.

Lemma Run_returns_cause_when_done_wins_witness :
  fst (awaitNext lateRunner lateWorld) = caseDone
  /\ exists lateWorld',
       Run (Ex := mock_Executor caseTimer) amd64 1 lateRunner lateWorld
       = Returns (Some DeadlineExceeded) lateRunner lateWorld'
       /\ lateWorld' = snd (awaitNext lateRunner lateWorld)
       /\ Cause (baseCtx lateRunner) (now lateWorld') = Some DeadlineExceeded
       /\ invocations (trace lateWorld') = invocations (trace lateWorld).
Proof.
  split; [reflexivity|].
  apply (Run_returns_cause_when_done_wins amd64 (Ex := mock_Executor caseTimer)
           lateRunner lateWorld 0).
  reflexivity.
Defined.

Lemma uint_modulus_arm : uint_modulus arm = 4294967296.
Proof. reflexivity. Qed.

(** C3, as stated, fails: on arm the run of [wrappingRunner] returns
    success after 2^32 executor calls, with [runsCompleted] back at 0. *)
Lemma runsCompleted_wraps_around :
  exists fuel r' w',
    Run arm fuel wrappingRunner timerFirst
    = Returns None r' w'
    /\ Z.of_nat (invocations (trace w')) = 4294967296
    /\ runsCompleted r' = 0
    /\ runsCompleted r' <> Z.of_nat (invocations (trace w')).
Proof.
  assert (Hk : failures (executor wrappingRunner)
               - calls (executor wrappingRunner)
               = Z.of_nat (Z.to_nat 4294967295)).
  { rewrite Z2Nat.id by lia. reflexivity. }
  destruct (Run_counting arm (Z.to_nat 4294967295) wrappingRunner timerFirst
              eq_refl eq_refl eq_refl Hk) as (r' & w' & HR & HI).
  assert (Hu : is_uint arm (runsCompleted wrappingRunner)).
  { unfold is_uint. rewrite uint_modulus_arm.
    change (runsCompleted wrappingRunner) with 0. lia. }
  destruct (Run_counts arm _ _ _ _ _ _ Hu HR) as (k & Hk1 & Hk2).
  change (invocations (trace timerFirst)) with O in HI, Hk1.
  assert (Hinv : Z.of_nat (invocations (trace w')) = 4294967296).
  { rewrite HI, Nat.add_0_l, Nat2Z.inj_succ, Z2Nat.id by lia. reflexivity. }
  assert (Hrc : runsCompleted r' = 0).
  { rewrite Hk2. rewrite Nat.add_0_l in Hk1. rewrite <- Hk1, Hinv.
    rewrite uint_modulus_arm.
    change (runsCompleted wrappingRunner) with 0. reflexivity. }
  exists (S (Z.to_nat 4294967295)), r', w'.
  split; [exact HR|]. split; [exact Hinv|]. split; [exact Hrc|].
  rewrite Hrc, Hinv. discriminate.
Qed.

(** C3, amended.  When [Run] returns, [runsCompleted] has advanced by the
    number [k] of executor calls the run made, modulo the width of
    [uint]: exactly by [k] as long as the counter stays below
    [2^UintSize], which is always so under a run limit.  Every attempt
    that returns adds one call and one (wrapping) increment; waiting adds
    neither. *)
Theorem runsCompleted_counts_invocations
    (arch : GOARCH) {E : Type} {Ex : Executor E}
    (fuel : nat) (r : Runner E) (w : World) err r' w' :
  is_uint arch (runsCompleted r) ->
  Run arch fuel r w = Returns err r' w' ->
  (exists k : nat,
      invocations (trace w') = (invocations (trace w) + k)%nat
      /\ runsCompleted r' = (runsCompleted r + Z.of_nat k) mod uint_modulus arch
      /\ (runsCompleted r + Z.of_nat k < uint_modulus arch ->
          runsCompleted r' = runsCompleted r + Z.of_nat k)
      /\ (0 < MaxRuns r -> is_uint arch (MaxRuns r) ->
          runsCompleted r <= MaxRuns r ->
          runsCompleted r' = runsCompleted r + Z.of_nat k))
  /\ (forall r1 w1 e r2 w2,
        executeCommand arch r1 w1 = Some (e, r2, w2) ->
        invocations (trace w2) = S (invocations (trace w1))
        /\ runsCompleted r2 = (runsCompleted r1 + 1) mod uint_modulus arch)
  /\ (forall (r1 : Runner E) w1,
        invocations (trace (snd (awaitNext r1 w1))) = invocations (trace w1)).
Proof.
  intros Hu HR. split; [|split].
  - destruct (Run_counts arch _ _ _ _ _ _ Hu HR) as (k & Hk1 & Hk2).
    exists k. split; [exact Hk1|]. split; [exact Hk2|]. split.
    + intros Hlt. rewrite Hk2. apply Z.mod_small. unfold is_uint in Hu. lia.
    + intros Hpos HuM Hle.
      destruct (Run_counts_bounded arch _ _ _ _ _ _ Hpos HuM
                  (conj (proj1 Hu) Hle) HR) as (k' & Hk1' & Hk2' & _).
      assert (k' = k) by lia. subst k'. exact Hk2'.
  - intros r1 w1 e r2 w2 Hx. apply executeCommand_counts in Hx.
    destruct Hx as (Hi & Hc & _). split; [exact Hi|exact Hc].
  - intros r1 w1. destruct (awaitNext r1 w1) as [won w2] eqn:Ha.
    cbn [snd]. eapply awaitNext_invocations; eauto.
Qed.

Lemma runsCompleted_counts_invocations_witness :
  exists err r' w',
    Run (Ex := mock_Executor caseTimer) amd64 4 failingRunner
        timerFirst = Returns err r' w'
    /\ runsCompleted r' = 3
    /\ invocations (trace w') = 3%nat
    /\ is_uint amd64 (runsCompleted failingRunner)
    /\ exists k : nat,
         invocations (trace w') = (0 + k)%nat
         /\ runsCompleted r' = (0 + Z.of_nat k) mod uint_modulus amd64.
Proof.
  assert (Hu : is_uint amd64 (runsCompleted failingRunner)).
  { unfold is_uint, uint_modulus; cbn; lia. }
  eexists; eexists; eexists.
  split; [lazy; reflexivity|]. split; [reflexivity|].
  split; [reflexivity|]. split; [exact Hu|].
  destruct (runsCompleted_counts_invocations amd64
              (Ex := mock_Executor caseTimer) 4 failingRunner
              timerFirst _ _ _ Hu eq_refl)
    as [(k & Hk1 & Hk2 & _) _].
  exists k. split; [exact Hk1|exact Hk2].
Defined.

(** C4.  After an attempt: if the executor reported no failure and
    [ContinueOnSuccess] is false, the iteration returns [nil] and so does
    [Run]; in every other case (a failure, or a success with
    [ContinueOnSuccess] set) the iteration does not return and [Run] goes
    into its next iteration. *)
Theorem Run_after_attempt
    (arch : GOARCH) {E : Type} {Ex : Executor E}
    (r : Runner E) (w w1 : World) err r2 w2 :
  awaitNext r w = (caseTimer, w1) ->
  (0 <? MaxRuns r) && (MaxRuns r <=? runsCompleted r) = false ->
  executeCommand arch r w1 = Some (err, r2, w2) ->
  (err = None /\ ContinueOnSuccess r = false ->
   iteration arch r w = Return None r2 w2
   /\ forall fuel, Run arch (S fuel) r w = Returns None r2 w2)
  /\ (err <> None \/ ContinueOnSuccess r = true ->
      iteration arch r w = Continue r2 w2
      /\ forall fuel, Run arch (S fuel) r w = Run arch fuel r2 w2).
Proof.
  intros Ha Hm Hx.
  assert (Hc : ContinueOnSuccess r2 = ContinueOnSuccess r).
  { pose proof (executeCommand_inv _ _ _ _ _ _ Hx) as (? & ? & _ & Hr & _).
    now subst r2. }
  split.
  - intros [He Hcs]. subst err.
    assert (Hit : iteration arch r w = Return None r2 w2).
    { unfold iteration. rewrite Ha, Hm, Hx, Hc, Hcs. reflexivity. }
    split; [exact Hit|]. intros fuel. cbn [Run]. now rewrite Hit.
  - intros Hor.
    assert (Hit : iteration arch r w = Continue r2 w2).
    { unfold iteration. rewrite Ha, Hm, Hx, Hc.
      destruct err as [e|]; [reflexivity|].
      destruct Hor as [Hne|Hcs]; [congruence|]. now rewrite Hcs. }
    split; [exact Hit|]. intros fuel. cbn [Run]. now rewrite Hit.
Qed.

Lemma Run_after_attempt_witness :
  (exists w1 r2 w2,
      awaitNext succeedingRunner timerFirst = (caseTimer, w1)
      /\ executeCommand (Ex := mock_Executor caseTimer) amd64 succeedingRunner w1
         = Some (None, r2, w2)
      /\ iteration (Ex := mock_Executor caseTimer) amd64 succeedingRunner timerFirst
         = Return None r2 w2)
  /\ (exists w1 e r2 w2,
         awaitNext failingRunner timerFirst = (caseTimer, w1)
         /\ executeCommand (Ex := mock_Executor caseTimer) amd64
              failingRunner w1 = Some (Some e, r2, w2)
         /\ iteration (Ex := mock_Executor caseTimer) amd64 failingRunner timerFirst
            = Continue r2 w2).
Proof.
  split.
  - eexists; eexists; eexists.
    split; [lazy; reflexivity|]. split; [lazy; reflexivity|].
    refine (proj1 (proj1 (Run_after_attempt amd64
                            (Ex := mock_Executor caseTimer)
                            succeedingRunner timerFirst _ None _ _ eq_refl eq_refl eq_refl)
                         (conj eq_refl eq_refl))).
  - eexists; eexists; eexists; eexists.
    split; [lazy; reflexivity|]. split; [lazy; reflexivity|].
    refine (proj1 (proj2 (Run_after_attempt amd64
                            (Ex := mock_Executor caseTimer)
                            failingRunner timerFirst _ (Some _) _ _
                            eq_refl eq_refl eq_refl)
                         (or_introl _))).
    discriminate.
Defined.

(** The delay computed for the next attempt, by the value of the
    counter: 0 while [runsCompleted] is 0, [RetryDelay] once it is
    positive; it is this delay that the loop hands to [time.After]. *)
Theorem nextExecDelay_zero_then_RetryDelay
    {E : Type} (r : Runner E) (w : World) :
  (runsCompleted r = 0 -> nextExecDelay r = 0)
  /\ (runsCompleted r > 0 -> nextExecDelay r = RetryDelay r)
  /\ delays (trace (snd (awaitNext r w))) = nextExecDelay r :: delays (trace w).
Proof.
  split; [|split].
  - intros H. unfold nextExecDelay. now rewrite H.
  - intros H. unfold nextExecDelay.
    destruct (Z.eqb_spec (runsCompleted r) 0); [lia|reflexivity].
  - destruct (awaitNext r w) as [won w1] eqn:Ha.
    apply awaitNext_inv in Ha. destruct Ha as [_ Hw]. cbn [snd].
    rewrite Hw. reflexivity.
Qed.

Lemma nextExecDelay_zero_then_RetryDelay_witness :
  (runsCompleted failingRunner = 0 /\ nextExecDelay failingRunner = 0)
  /\ (runsCompleted lateRunner > 0
      /\ nextExecDelay lateRunner = 10 * Millisecond).
Proof.
  split.
  - split; [reflexivity|].
    apply (proj1 (nextExecDelay_zero_then_RetryDelay failingRunner
                    timerFirst)).
    reflexivity.
  - split; [reflexivity|].
    apply (proj1 (proj2 (nextExecDelay_zero_then_RetryDelay lateRunner
                           timerFirst))).
    reflexivity.
Defined.

(** C6.  An attempt calls the executor with the Runner's command,
    arguments and options under one scope.  If [ProcessTimeout > 0] the
    scope is [context.WithTimeout] of the overall context: it is done as
    soon as the overall context is done or the process timeout has
    passed, whichever comes first.  If [ProcessTimeout = 0] the scope is
    the overall context itself. *)
Theorem executeCommand_scope
    (arch : GOARCH) {E : Type} {Ex : Executor E}
    (r : Runner E) (w : World) :
  exists scope,
    (0 < ProcessTimeout r ->
     scope = WithTimeout (baseCtx r) (now w) (ProcessTimeout r)
     /\ (forall t, Done scope t
                   = Done (baseCtx r) t || (now w + ProcessTimeout r <=? t))
     /\ done_at scope
        = Some (match done_at (baseCtx r) with
                | Some p => Z.min p (now w + ProcessTimeout r)
                | None => now w + ProcessTimeout r
                end))
    /\ (ProcessTimeout r = 0 -> scope = baseCtx r)
    /\ (executeCommand arch r w = None <->
        exec_Run (executor r) scope (now w) (CommandOptions r)
                 (name r) (args r) = None)
    /\ (forall err r2 w2,
          executeCommand arch r w = Some (err, r2, w2) ->
          exists took ex',
            exec_Run (executor r) scope (now w) (CommandOptions r)
                     (name r) (args r) = Some (err, took, ex')
            /\ trace w2
               = evExec scope (now w) (now w + Z.max 0 took) err :: trace w).
Proof.
  exists (attemptScope r (now w)). split; [|split; [|split]].
  - intros Hpos. unfold attemptScope.
    destruct (Z.ltb_spec 0 (ProcessTimeout r)); [|lia].
    split; [reflexivity|]. split.
    + intros t. apply Done_WithTimeout.
    + unfold WithTimeout, WithTimeoutCause.
      destruct (done_at (baseCtx r)) as [p|] eqn:Hp; [|reflexivity].
      destruct (Z.leb_spec p (now w + ProcessTimeout r)); cbn.
      * rewrite Hp. f_equal. lia.
      * f_equal. lia.
  - intros Hz. unfold attemptScope. now rewrite Hz.
  - unfold executeCommand.
    destruct (exec_Run _ _ _ _ _ _) as [[[e t] x]|];
      split; intros H; try discriminate; reflexivity.
  - intros err r2 w2 Hx. apply executeCommand_inv in Hx.
    destruct Hx as (took & ex' & Hex & _ & Hw).
    exists took, ex'. split; [exact Hex|]. now subst w2.
Qed.

Lemma executeCommand_scope_witness :
  0 < ProcessTimeout timedRunner
  /\ exists scope,
       scope = WithTimeout (baseCtx timedRunner) (now timerFirst) (ProcessTimeout timedRunner)
       /\ done_at scope = Some (45 * Millisecond)
       /\ exists took ex',
            exec_Run (Executor := mock_Executor caseTimer)
                     (executor timedRunner) scope (now timerFirst) (CommandOptions timedRunner)
                     (name timedRunner) (args timedRunner)
            = Some (Some DeadlineExceeded, took, ex').
Proof.
  split; [reflexivity|].
  destruct (executeCommand_scope amd64 (Ex := mock_Executor caseTimer) timedRunner timerFirst)
    as (scope & Hpos & _ & _ & Hx).
  destruct (Hpos eq_refl) as (Hs & _ & Hd).
  exists scope. split; [exact Hs|]. split; [exact Hd|].
  assert (Hrun : exists r2 w2,
             executeCommand (Ex := mock_Executor caseTimer) amd64 timedRunner timerFirst
             = Some (Some DeadlineExceeded, r2, w2)).
  { eexists; eexists. lazy. reflexivity. }
  destruct Hrun as (r2 & w2 & Hrun).
  destruct (Hx _ _ _ Hrun) as (took & ex' & Hex & _).
  exists took, ex'. exact Hex.
Defined.

(** C7, as stated, fails: the run of the test "fails when exceeds max
    runs" ([MaxRuns = 3], [RetryDelay = 10ms], a command that always
    fails) returns the sentinel after three runs, but it has waited for
    the retry delay three times, not twice, and 30ms have passed, as the
    test itself expects. *)
Lemma three_runs_wait_three_times :
  exists r' w',
    Run (Ex := mock_Executor caseTimer) amd64 4 failingRunner timerFirst
    = Returns (Some errMaxRunsCompleted) r' w'
    /\ runsCompleted r' = 3
    /\ retry_waits (trace w')
       = [10 * Millisecond; 10 * Millisecond; 10 * Millisecond]
    /\ now w' - now timerFirst = 30 * Millisecond
    /\ List.length (retry_waits (trace w')) <> 2%nat
    /\ now w' - now timerFirst <> 20 * Millisecond.
Proof.
  eexists; eexists. split; [lazy; reflexivity|].
  repeat split; try reflexivity; cbn; lia || discriminate.
Qed.

(** C7, amended.  With a run limit [N > 0], a retry delay [d >= 0], an
    executor that always fails and a context that is never done, [Run]
    returns the sentinel with [runsCompleted = N] after exactly [N]
    executor calls, and it has waited for the retry delay [N] times: once
    before each attempt after the first, and once more before it finds
    the limit reached.  The time elapsed is [N * d] plus the time spent
    in the attempts.  For [N = 3] and [d = 10ms]: three waits, 30ms. *)
Theorem Run_exhausted_waits_MaxRuns_times
    (arch : GOARCH) {E : Type} {Ex : Executor E}
    (r : Runner E) (w : World) (N : Z) (d : Duration) :
  0 < N -> is_uint arch N -> 0 <= d ->
  MaxRuns r = N -> RetryDelay r = d -> runsCompleted r = 0 ->
  trace w = [] ->
  always_fails (executor r) ->
  done_at (baseCtx r) = None ->
  exists fuel r' w',
    Run arch fuel r w = Returns (Some errMaxRunsCompleted) r' w'
    /\ runsCompleted r' = N
    /\ invocations (trace w') = Z.to_nat N
    /\ retry_waits (trace w') = repeat d (Z.to_nat N)
    /\ now w' - now w = N * d + exec_time (trace w')
    /\ 0 <= exec_time (trace w').
Proof.
  intros Hpos Hu Hd HN HD Hrc Htr Hf Hnd.
  destruct (Run_always_failing arch (Z.to_nat N) r w)
    as (r' & w' & HR & H1 & H2 & H3 & H4 & H5);
    try rewrite HN; auto; try lia.
  assert (Hned : nextExecDelay r = 0).
  { unfold nextExecDelay. now rewrite Hrc. }
  rewrite Htr, Hned, HD in *. cbn [invocations delays exec_time] in *.
  exists (S (Z.to_nat N)), r', w'.
  split; [exact HR|]. split; [lia|]. split; [exact H2|]. split; [|split].
  - unfold retry_waits. rewrite H3. apply removelast_last.
  - rewrite Z2Nat.id in H4 by lia.
    replace (Z.max 0 d) with d in H4 by lia. cbn in H4. lia.
  - exact H5.
Qed.

Lemma Run_exhausted_waits_MaxRuns_times_witness :
  always_fails (Ex := mock_Executor caseTimer) (executor failingRunner)
  /\ exists fuel r' w',
       Run (Ex := mock_Executor caseTimer) amd64 fuel failingRunner timerFirst
       = Returns (Some errMaxRunsCompleted) r' w'
       /\ runsCompleted r' = 3
       /\ invocations (trace w') = Z.to_nat 3
       /\ retry_waits (trace w') = repeat (10 * Millisecond) (Z.to_nat 3)
       /\ now w' - now timerFirst = 3 * (10 * Millisecond) + exec_time (trace w')
       /\ 0 <= exec_time (trace w').
Proof.
  assert (Hf : always_fails (Ex := mock_Executor caseTimer)
                 (executor failingRunner)).
  { apply mock_always_fails; [reflexivity|discriminate]. }
  split; [exact Hf|].
  apply (Run_exhausted_waits_MaxRuns_times amd64
           (Ex := mock_Executor caseTimer) failingRunner timerFirst 3
           (10 * Millisecond)).
  - lia.
  - apply is_uint_3.
  - cbn; lia.
  - reflexivity.
  - reflexivity.
  - reflexivity.
  - reflexivity.
  - exact Hf.
  - reflexivity.
Defined.

(** C8, as stated, fails: [Run] called with a context that is already
    done can still start an attempt.  The first delay is 0, so both cases
    of the [select] are ready; when the timer case is the one taken the
    executor is called, under a scope that is done. *)
Lemma done_context_may_start_attempt :
  Done (baseCtx cancelledRunner) (now timerFirst) = true
  /\ exists r' w',
       Run (Ex := mock_Executor caseDone) amd64 2 cancelledRunner timerFirst
       = Returns (Some Canceled) r' w'
       /\ invocations (trace w') = 1%nat
       /\ runsCompleted r' = 1
       /\ invocations (trace w') <> invocations (trace timerFirst).
Proof.
  split; [reflexivity|].
  eexists; eexists. split; [lazy; reflexivity|].
  repeat split; try reflexivity. cbn. discriminate.
Qed.

(** C8, amended.  No attempt starts once the loop has observed a terminal
    condition.  If [MaxRuns > 0] and [runsCompleted >= MaxRuns], [Run]
    returns in the current iteration without calling the executor.  If
    the overall context is done and either the delay to wait for is
    positive or the [select] takes the done case, [Run] returns the
    context's cause in the current iteration without calling the
    executor.  (When the context is done and the delay is not positive,
    the [select] may take either case.) *)
Theorem Run_stops_at_terminal_condition
    (arch : GOARCH) {E : Type} {Ex : Executor E}
    (r : Runner E) (w : World) (fuel : nat) :
  (0 < MaxRuns r <= runsCompleted r ->
   exists err w',
     Run arch (S fuel) r w = Returns err r w'
     /\ invocations (trace w') = invocations (trace w))
  /\ (Done (baseCtx r) (now w) = true ->
      0 < nextExecDelay r \/ sched w (selects w) = caseDone ->
      exists w',
        Run arch (S fuel) r w = Returns (Some (done_cause (baseCtx r))) r w'
        /\ invocations (trace w') = invocations (trace w)
        /\ now w' = now w).
Proof.
  split.
  - intros Hm. destruct (awaitNext r w) as [won w1] eqn:Ha.
    pose proof (awaitNext_invocations _ _ _ _ Ha) as Hi.
    cbn [Run]. unfold iteration. rewrite Ha. destruct won.
    + eauto.
    + replace ((0 <? MaxRuns r) && (MaxRuns r <=? runsCompleted r)) with true.
      * eauto.
      * symmetry. apply andb_true_iff. rewrite Z.ltb_lt, Z.leb_le. lia.
  - intros Hdone Hor.
    assert (Hs : select_ (baseCtx r) (now w) (nextExecDelay r)
                   (sched w (selects w)) = (caseDone, now w)).
    { destruct Hor as [Hpos|Hpick].
      - now apply select_done_first.
      - destruct (Z.lt_ge_cases 0 (nextExecDelay r)).
        + now apply select_done_first.
        + rewrite select_done_tie by (assumption || lia). now rewrite Hpick. }
    cbn [Run]. unfold iteration, awaitNext. rewrite Hs. cbn [now].
    unfold Cause. rewrite Hdone. eexists. split; [reflexivity|].
    cbn. split; reflexivity.
Qed.

Lemma Run_stops_at_terminal_condition_witness :
  (0 < MaxRuns exhaustedRunner <= runsCompleted exhaustedRunner
   /\ exists err w',
        Run (Ex := mock_Executor caseTimer) amd64 1 exhaustedRunner doneFirst = Returns err exhaustedRunner w'
        /\ invocations (trace w') = invocations (trace doneFirst))
  /\ (Done (baseCtx cancelledRunner) (now doneFirst) = true
      /\ sched doneFirst (selects doneFirst) = caseDone
      /\ exists w',
           Run (Ex := mock_Executor caseTimer) amd64 1 cancelledRunner doneFirst
           = Returns (Some Canceled) cancelledRunner w'
           /\ invocations (trace w') = invocations (trace doneFirst)
           /\ now w' = now doneFirst).
Proof.
  split.
  - assert (Hm : 0 < MaxRuns exhaustedRunner <= runsCompleted exhaustedRunner) by (cbn; lia).
    split; [exact Hm|].
    exact (proj1 (Run_stops_at_terminal_condition amd64
                    (Ex := mock_Executor caseTimer) exhaustedRunner doneFirst 0) Hm).
  - split; [reflexivity|]. split; [reflexivity|].
    exact (proj2 (Run_stops_at_terminal_condition amd64
                    (Ex := mock_Executor caseTimer) cancelledRunner doneFirst 0)
                 eq_refl (or_intror eq_refl)).
Defined.

(** C9, as stated, fails: [NewRunner] leaves [RetryDelay] at 0, and a
    Runner run that way does not wait between its attempts. *)
Lemma NewRunner_leaves_RetryDelay_zero :
  RetryDelay plainRunner = 0
  /\ RetryDelay plainRunner <> Second
  /\ exists r' w',
       Run (Ex := mock_Executor caseTimer) amd64 4 plainRunner timerFirst
       = Returns (Some errMaxRunsCompleted) r' w'
       /\ runsCompleted r' = 3
       /\ retry_waits (trace w') = [0; 0; 0]
       /\ now w' = now timerFirst.
Proof.
  split; [reflexivity|]. split; [discriminate|].
  eexists; eexists. split; [lazy; reflexivity|].
  repeat split; reflexivity.
Qed.

(** C9, amended.  The retry delay of a Runner built by [NewRunner] is 0:
    unless the caller assigns [RetryDelay], the delay computed before
    every attempt is 0.  The default of one second is that of the
    command line's [-retry-delay] flag, which [main] assigns to the
    Runner it builds. *)
Theorem RetryDelay_defaults
    {E : Type} (ex : E) (ctx : Context) (nm : string) (arg : list string)
    (t : Time) (interrupt : option Time) :
  RetryDelay (NewRunner ex ctx nm arg) = 0
  /\ (forall n : Z,
        nextExecDelay
          (mkRunner nm arg ctx 0 (RetryDelay (NewRunner ex ctx nm arg)) 0
                    false zeroCommandOpts n ex) = 0)
  /\ Cli.retryDelay Cli.defaultFlags = Second
  /\ RetryDelay (Cli.mainRunner ex Cli.defaultFlags t interrupt nm arg) = Second
  /\ (forall n : Z,
        n <> 0 ->
        nextExecDelay
          (mkRunner nm arg ctx 0
             (RetryDelay (Cli.mainRunner ex Cli.defaultFlags t interrupt nm arg))
             0 false zeroCommandOpts n ex) = Second).
Proof.
  split; [reflexivity|]. split.
  - intros n. unfold nextExecDelay. cbn. now destruct (n =? 0).
  - split; [reflexivity|]. split; [reflexivity|].
    intros n Hn. unfold nextExecDelay. cbn [runsCompleted RetryDelay].
    destruct (Z.eqb_spec n 0); [contradiction|reflexivity].
Qed.

Lemma RetryDelay_defaults_witness :
  RetryDelay plainRunner = 0
  /\ nextExecDelay
       (mkRunner "cmd" [] Background 0 (RetryDelay plainRunner) 0 false
                 zeroCommandOpts 1 (mkMock 0 EmptyString 1)) = 0
  /\ (1 <> 0 ->
      nextExecDelay
        (mkRunner "cmd" [] Background 0
           (RetryDelay (Cli.mainRunner (mkMock 0 EmptyString 1)
                          Cli.defaultFlags 0 None "cmd" []))
           0 false zeroCommandOpts 1 (mkMock 0 EmptyString 1)) = Second).
Proof.
  destruct (RetryDelay_defaults (mkMock 0 EmptyString 1) Background
              "cmd" [] 0 None) as (H1 & H2 & _ & _ & H5).
  split; [reflexivity|]. split; [exact (H2 1)|]. exact (H5 1).
Defined.

(** C10.  With a run limit [MaxRuns = N > 0] and an executor whose calls
    all return, with failures or successes in any mix and whatever
    [ContinueOnSuccess] is, [Run] returns within [N + 1] iterations of
    its loop, having called the executor at most [N] times: the counter,
    checked against the limit before every attempt, goes up by one with
    each attempt. *)
Theorem Run_terminates_within_MaxRuns
    (arch : GOARCH) {E : Type} {Ex : Executor E}
    (r : Runner E) (w : World) (N : Z) :
  0 < N -> is_uint arch N ->
  MaxRuns r = N -> runsCompleted r = 0 ->
  always_returns (executor r) ->
  exists err r' w' (k : nat),
    (forall extra,
        Run arch (S (Z.to_nat N) + extra) r w = Returns err r' w')
    /\ invocations (trace w') = (invocations (trace w) + k)%nat
    /\ Z.of_nat k <= N
    /\ runsCompleted r' = Z.of_nat k.
Proof.
  intros Hpos Hu HN Hrc Hret.
  destruct (Run_bounded_returns arch (Z.to_nat N) r w)
    as (err & r' & w' & HR); try rewrite HN; auto; try lia.
  assert (Hk : exists k : nat,
             invocations (trace w') = (invocations (trace w) + k)%nat
             /\ runsCompleted r' = runsCompleted r + Z.of_nat k
             /\ runsCompleted r' <= MaxRuns r).
  { apply (Run_counts_bounded arch (S (Z.to_nat N)) r w err r' w');
      try rewrite HN; auto; lia. }
  destruct Hk as (k & Hk1 & Hk2 & Hk3).
  rewrite HN in Hk3.
  exists err, r', w', k. split; [|split; [|split]].
  - intros extra. now apply Run_fuel_mono.
  - exact Hk1.
  - lia.
  - lia.
Qed.

Lemma Run_terminates_within_MaxRuns_witness :
  always_returns (Ex := mock_Executor caseTimer) (executor continuingRunner)
  /\ exists err r' w' (k : nat),
       (forall extra,
           Run (Ex := mock_Executor caseTimer) arm (S (Z.to_nat 3) + extra)
               continuingRunner timerFirst = Returns err r' w')
       /\ invocations (trace w') = (invocations (trace timerFirst) + k)%nat
       /\ Z.of_nat k <= 3
       /\ runsCompleted r' = Z.of_nat k.
Proof.
  assert (Hret : always_returns (Ex := mock_Executor caseTimer)
                   (executor continuingRunner)).
  { apply mock_always_returns. reflexivity. }
  split; [exact Hret|].
  apply (Run_terminates_within_MaxRuns arm (Ex := mock_Executor caseTimer)
           continuingRunner timerFirst 3).
  - lia.
  - apply is_uint_3.
  - reflexivity.
  - reflexivity.
  - exact Hret.
Defined.

(* ================================================================= *)
(** ** Further properties of [Run] *)

Section MoreRuns.

Variable arch : GOARCH.
Context {E : Type} {Ex : Executor E}.

Lemma same_config_refl (r : Runner E) : same_config r r.
Proof. unfold same_config. repeat split. Qed.

Lemma same_config_trans (r1 r2 r3 : Runner E) :
  same_config r1 r2 -> same_config r2 r3 -> same_config r1 r3.
Proof.
  unfold same_config.
  intros (A1 & A2 & A3 & A4 & A5 & A6 & A7 & A8)
         (B1 & B2 & B3 & B4 & B5 & B6 & B7 & B8).
  repeat split; congruence.
Qed.

Lemma executeCommand_config (r : Runner E) (w : World) err r2 w2 :
  executeCommand arch r w = Some (err, r2, w2) ->
  same_config r r2 /\ sched w2 = sched w /\ selects w2 = selects w
  /\ now w <= now w2.
Proof.
  intros H. apply executeCommand_inv in H.
  destruct H as (took & ex' & _ & Hr & Hw). subst r2 w2.
  unfold same_config. cbn. repeat split. lia.
Qed.

Lemma awaitNext_world (r : Runner E) (w : World) won w1 :
  awaitNext r w = (won, w1) ->
  sched w1 = sched w /\ selects w1 = S (selects w) /\ now w <= now w1
  /\ trace w1 = evSelect (nextExecDelay r) won (now w1) :: trace w.
Proof.
  intros H. apply awaitNext_inv in H. destruct H as [Hs Hw].
  apply select_time_mono in Hs. rewrite Hw. cbn. repeat split. exact Hs.
Qed.

(** What the loop keeps from one iteration to the next. *)
Lemma iteration_Continue_keeps (r : Runner E) (w : World) r2 w2 :
  iteration arch r w = Continue r2 w2 ->
  same_config r r2 /\ sched w2 = sched w /\ now w <= now w2.
Proof.
  intros H. apply iteration_Continue in H.
  destruct H as (w1 & e & Ha & _ & Hx & _).
  apply awaitNext_world in Ha. destruct Ha as (S1 & _ & N1 & _).
  apply executeCommand_config in Hx. destruct Hx as (C & S2 & _ & N2).
  split; [exact C|]. split; [congruence|lia].
Qed.

Lemma Run_config (fuel : nat) :
  forall (r : Runner E) (w : World) err r' w',
    Run arch fuel r w = Returns err r' w' ->
    same_config r r' /\ sched w' = sched w /\ now w <= now w'.
Proof.
  induction fuel as [|fuel IH]; simpl; intros r w err r' w' H.
  - discriminate.
  - destruct (iteration arch r w) as [e0 r0 w0|r0 w0|] eqn:Hit;
      [| |discriminate].
    + inversion H; subst e0 r0 w0. clear H.
      apply iteration_Return in Hit.
      destruct Hit as [(Ha & Hr & _)|[(Ha & Hr & _)|(w1 & Ha & _ & Hx & _)]].
      * subst r'. apply awaitNext_world in Ha.
        destruct Ha as (S1 & _ & N1 & _).
        split; [apply same_config_refl|]. split; assumption.
      * subst r'. apply awaitNext_world in Ha.
        destruct Ha as (S1 & _ & N1 & _).
        split; [apply same_config_refl|]. split; assumption.
      * apply awaitNext_world in Ha. destruct Ha as (S1 & _ & N1 & _).
        apply executeCommand_config in Hx. destruct Hx as (C & S2 & _ & N2).
        split; [exact C|]. split; [congruence|lia].
    + apply iteration_Continue_keeps in Hit. destruct Hit as (C & S1 & N1).
      destruct (IH _ _ _ _ _ H) as (C' & S' & N').
      split; [eapply same_config_trans; eauto|]. split; [congruence|lia].
Qed.

(** The result of [Run] and how it came about. *)
Lemma Run_kinds (fuel : nat) :
  forall (r : Runner E) (w : World) err r' w',
    Run arch fuel r w = Returns err r' w' ->
    (err = Some (done_cause (baseCtx r))
     /\ Done (baseCtx r) (now w') = true
     /\ exists d tr, trace w' = evSelect d caseDone (now w') :: tr)
    \/ (err = Some errMaxRunsCompleted
        /\ 0 < MaxRuns r <= runsCompleted r'
        /\ exists d tr, trace w' = evSelect d caseTimer (now w') :: tr)
    \/ (err = None
        /\ ContinueOnSuccess r = false
        /\ exists scope start tr,
             trace w' = evExec scope start (now w') None :: tr).
Proof.
  induction fuel as [|fuel IH]; simpl; intros r w err r' w' H.
  - discriminate.
  - destruct (iteration arch r w) as [e0 r0 w0|r0 w0|] eqn:Hit;
      [| |discriminate].
    + inversion H; subst e0 r0 w0. clear H.
      apply iteration_Return in Hit.
      destruct Hit as [(Ha & Hr & He)
                      |[(Ha & Hr & Hm & He)
                       |(w1 & Ha & _ & Hx & Hc & He)]].
      * left. split; [exact He|].
        pose proof (awaitNext_inv _ _ _ _ Ha) as [Hs _].
        apply select_caseDone_Done in Hs. split; [exact Hs|].
        apply awaitNext_world in Ha. destruct Ha as (_ & _ & _ & Ht). eauto.
      * right; left. subst r'. split; [exact He|]. split; [exact Hm|].
        apply awaitNext_world in Ha. destruct Ha as (_ & _ & _ & Ht). eauto.
      * right; right. split; [exact He|]. split; [exact Hc|].
        apply executeCommand_inv in Hx.
        destruct Hx as (took & ex' & _ & _ & Hw). subst w'. cbn. eauto.
    + apply iteration_Continue_keeps in Hit.
      destruct Hit as ((_ & _ & Hb & _ & _ & HM & HC & _) & _ & _).
      specialize (IH _ _ _ _ _ H). rewrite Hb, HM, HC in IH. exact IH.
Qed.

(** An executor that always fails never makes [Run] return success. *)
Lemma Run_always_fails_not_nil (fuel : nat) :
  forall (r : Runner E) (w : World) err r' w',
    always_fails (executor r) ->
    Run arch fuel r w = Returns err r' w' -> err <> None.
Proof.
  induction fuel as [|fuel IH]; simpl; intros r w err r' w' Hf H.
  - discriminate.
  - destruct (iteration arch r w) as [e0 r0 w0|r0 w0|] eqn:Hit;
      [| |discriminate].
    + inversion H; subst e0 r0 w0. clear H.
      apply iteration_Return in Hit.
      destruct Hit as [(_ & _ & He)|[(_ & _ & _ & He)|(w1 & _ & _ & Hx & _)]];
        try (subst err; discriminate).
      apply executeCommand_inv in Hx.
      destruct Hx as (took & ex' & Hex & _ & _).
      destruct (Hf _ (reach_here _) (attemptScope r (now w1)) (now w1)
                   (CommandOptions r) (name r) (args r))
        as (e & t & x & Hex').
      congruence.
    + apply iteration_Continue in Hit.
      destruct Hit as (w1 & e & _ & _ & Hx & _).
      apply executeCommand_inv in Hx.
      destruct Hx as (took & ex' & Hex & Hr0 & _).
      eapply IH; [|exact H]. subst r0. cbn.
      eapply always_fails_next; eauto.
Qed.

(** Without a run limit and under a context that is never done, an
    iteration in which the executor returns is followed by another one
    unless the call succeeded and [ContinueOnSuccess] is off. *)
Lemma Run_unlimited (fuel : nat) :
  forall (r : Runner E) (w : World),
    done_at (baseCtx r) = None ->
    MaxRuns r = 0 ->
    always_returns (executor r) ->
    ContinueOnSuccess r = true \/ always_fails (executor r) ->
    Run arch fuel r w = OutOfFuel.
Proof.
  induction fuel as [|fuel IH]; intros r w Hnd Hmax Hret Hor.
  - reflexivity.
  - cbn [Run]. unfold iteration, awaitNext.
    rewrite select_never_done by assumption. rewrite Hmax.
    cbn [Z.ltb Z.compare andb].
    destruct (executeCommand arch r _) as [[[err r2] w2]|] eqn:Hx.
    + pose proof (executeCommand_config _ _ _ _ _ Hx)
        as ((_ & _ & Hb & _ & _ & HM & HC & _) & _).
      apply executeCommand_inv in Hx.
      destruct Hx as (took & ex' & Hex & Hr2 & _).
      assert (Hret2 : always_returns (executor r2)).
      { subst r2. cbn. eapply always_returns_next; eauto. }
      assert (Hor2 : ContinueOnSuccess r2 = true \/ always_fails (executor r2)).
      { destruct Hor as [Hc|Hf]; [left; congruence|right].
        subst r2. cbn. eapply always_fails_next; eauto. }
      assert (Hgo : Run arch fuel r2 w2 = OutOfFuel).
      { apply IH; auto; congruence. }
      destruct err as [e|]; [exact Hgo|].
      destruct Hor as [Hc|Hf].
      * rewrite HC, Hc. exact Hgo.
      * exfalso. cbn [now] in Hex.
        match type of Hex with
        | exec_Run _ ?c ?t _ _ _ = _ =>
            destruct (Hf _ (reach_here _) c t
                         (CommandOptions r) (name r) (args r))
              as (e & tk & x & Hex')
        end.
        congruence.
    + exfalso. unfold executeCommand in Hx.
      destruct (exec_Run _ _ _ _ _ _) as [[[e t] x]|] eqn:Hex;
        [discriminate|].
      eapply Hret; [apply reach_here|exact Hex].
Qed.

End MoreRuns.

Section SuccessAndDeadline.

Variable arch : GOARCH.
Context {E : Type} {Ex : Executor E}.

(** The run of a Runner whose executor fails [k] times and then
    succeeds, under a context that is never done and with enough of the
    run limit left. *)
Lemma Run_first_success (k : nat) :
  forall (r : Runner E) (w : World),
    succeeds_after k (executor r) ->
    ContinueOnSuccess r = false ->
    done_at (baseCtx r) = None ->
    0 <= runsCompleted r ->
    runsCompleted r + Z.of_nat k + 1 < uint_modulus arch ->
    MaxRuns r = 0 \/ runsCompleted r + Z.of_nat k < MaxRuns r ->
    exists r' w',
      Run arch (S k) r w = Returns None r' w'
      /\ runsCompleted r' = runsCompleted r + Z.of_nat k + 1
      /\ invocations (trace w') = (invocations (trace w) + S k)%nat
      /\ delays (trace w')
         = repeat (RetryDelay r) k ++ nextExecDelay r :: delays (trace w).
Proof.
  induction k as [|k IH]; intros r w Hs Hcs Hnd Hrc Hlt HM.
  - assert (Hm : (0 <? MaxRuns r) && (MaxRuns r <=? runsCompleted r) = false).
    { apply andb_false_iff. rewrite Z.ltb_ge, Z.leb_gt. lia. }
    set (t1 := now w + Z.max 0 (nextExecDelay r)).
    destruct (Hs (attemptScope r t1) t1 (CommandOptions r) (name r) (args r))
      as (took & ex' & Hex).
    cbn [Run]. unfold iteration, awaitNext.
    rewrite select_never_done by assumption. rewrite Hm.
    unfold executeCommand. cbn [now]. fold t1. rewrite Hex.
    cbn [ContinueOnSuccess]. rewrite Hcs. cbn [negb].
    eexists; eexists. split; [reflexivity|]. cbn.
    split; [rewrite uint_incr_small by lia; lia|]. split; [lia|reflexivity].
  - assert (Hm : (0 <? MaxRuns r) && (MaxRuns r <=? runsCompleted r) = false).
    { apply andb_false_iff. rewrite Z.ltb_ge, Z.leb_gt. lia. }
    set (t1 := now w + Z.max 0 (nextExecDelay r)).
    destruct (Hs (attemptScope r t1) t1 (CommandOptions r) (name r) (args r))
      as (e & took & ex' & Hex & Hs').
    set (r2 := mkRunner (name r) (args r) (baseCtx r) (ProcessTimeout r)
                 (RetryDelay r) (MaxRuns r) (ContinueOnSuccess r)
                 (CommandOptions r) (uint_incr arch (runsCompleted r)) ex').
    set (w2 := mkWorld (t1 + Z.max 0 took) (sched w) (S (selects w))
                 (evExec (attemptScope r t1) t1 (t1 + Z.max 0 took) (Some e)
                    :: evSelect (nextExecDelay r) caseTimer t1 :: trace w)).
    assert (Hit : iteration arch r w = Continue r2 w2).
    { unfold iteration, awaitNext.
      rewrite select_never_done by assumption. rewrite Hm.
      unfold executeCommand. cbn [now]. fold t1. rewrite Hex. reflexivity. }
    assert (Hc : runsCompleted r2 = runsCompleted r + 1).
    { unfold r2; cbn [runsCompleted]. apply uint_incr_small; lia. }
    assert (Hd : nextExecDelay r2 = RetryDelay r).
    { unfold nextExecDelay. rewrite Hc. cbn [RetryDelay r2].
      destruct (Z.eqb_spec (runsCompleted r + 1) 0); [lia|reflexivity]. }
    destruct (IH r2 w2) as (r' & w' & HR & H1 & H2 & H3); auto;
      try (rewrite Hc; cbn [MaxRuns r2]; lia).
    exists r', w'. cbn [Run]. rewrite Hit. split; [exact HR|].
    rewrite Hd in H3. rewrite Hc in H1. cbn in H2, H3.
    split; [lia|]. split; [lia|].
    rewrite H3. cbn [repeat]. rewrite (repeat_cons k (RetryDelay r)).
    rewrite <- app_assoc. reflexivity.
Qed.

Lemma iteration_Stuck_inv (r : Runner E) (w : World) :
  iteration arch r w = Stuck ->
  exists ctx t, exec_Run (executor r) ctx t (CommandOptions r)
                         (name r) (args r) = None.
Proof.
  unfold iteration. destruct (awaitNext r w) as [[|] w1]; [discriminate|].
  destruct ((0 <? MaxRuns r) && (MaxRuns r <=? runsCompleted r));
    [discriminate|].
  unfold executeCommand.
  destruct (exec_Run (executor r) (attemptScope r (now w1)) (now w1)
              (CommandOptions r) (name r) (args r))
    as [[[e1 took] ex']|] eqn:Hex.
  - destruct e1; [discriminate|].
    cbn. destruct (ContinueOnSuccess r); discriminate.
  - eauto.
Qed.

(** When the timer case is taken, the timer has run its full delay, and
    the context was not done before. *)
Lemma select_caseTimer_inv ctx t d pick t' dn :
  select_ ctx t d pick = (caseTimer, t') ->
  done_at ctx = Some dn ->
  t' = t + Z.max 0 d /\ t' <= Z.max t dn.
Proof.
  unfold select_. intros H Hd. rewrite Hd in H.
  destruct (Z.compare_spec (Z.max t dn) (t + Z.max 0 d)) as [Heq|Hlt|Hgt];
    inversion H; subst; lia.
Qed.

Variable T : Time.

(** One iteration under a context done at [T], with an executor that
    always returns: the loop returns, or it goes on with the same
    configuration, the counter incremented, and the clock advanced by
    the delay waited for, which ended no later than [T]. *)
Lemma iteration_deadline (r : Runner E) (w : World) :
  done_at (baseCtx r) = Some T ->
  always_returns (executor r) ->
  (exists err r' w', iteration arch r w = Return err r' w')
  \/ (exists r2 w2,
        iteration arch r w = Continue r2 w2
        /\ done_at (baseCtx r2) = Some T
        /\ RetryDelay r2 = RetryDelay r
        /\ always_returns (executor r2)
        /\ runsCompleted r2 = uint_incr arch (runsCompleted r)
        /\ now w + Z.max 0 (nextExecDelay r) <= now w2
        /\ now w + Z.max 0 (nextExecDelay r) <= Z.max (now w) T).
Proof.
  intros Hd Hret.
  destruct (iteration arch r w) as [e0 r0 w0|r0 w0|] eqn:Hit.
  - left; eauto.
  - right. exists r0, w0. split; [reflexivity|].
    apply iteration_Continue in Hit.
    destruct Hit as (w1 & e & Ha & _ & Hx & _).
    apply awaitNext_inv in Ha. destruct Ha as [Hs _].
    destruct (select_caseTimer_inv _ _ _ _ _ _ Hs Hd) as [Ht1 Ht2].
    pose proof (executeCommand_config _ _ _ _ _ _ Hx)
      as ((_ & _ & Hb & _ & HR & _) & _ & _ & Hn).
    pose proof (executeCommand_counts _ _ _ _ _ _ Hx) as (_ & Hc & _).
    apply executeCommand_inv in Hx.
    destruct Hx as (took & ex' & Hex & Hr0 & _).
    split; [congruence|]. split; [exact HR|]. split.
    { subst r0. cbn. eapply always_returns_next; eauto. }
    split; [exact Hc|]. split; lia.
  - exfalso. apply iteration_Stuck_inv in Hit.
    destruct Hit as (ctx & t & Hex).
    eapply Hret; [apply reach_here|exact Hex].
Qed.

(** Under a context done at [T] and with a positive retry delay, a
    Runner whose counter is not 0 returns once [T] has come. *)
Lemma Run_deadline_retrying (n : nat) :
  forall (r : Runner E) (w : World),
    done_at (baseCtx r) = Some T ->
    0 < RetryDelay r ->
    always_returns (executor r) ->
    runsCompleted r <> 0 ->
    T - now w <= Z.of_nat n ->
    exists fuel err r' w', Run arch fuel r w = Returns err r' w'.
Proof.
  assert (Hone : uint_incr arch 0 = 1).
  { apply uint_incr_small; [lia|]. destruct arch; reflexivity. }
  induction n as [|n IH]; intros r w Hd Hpos Hret Hrc Hn.
  - destruct (iteration_deadline r w Hd Hret)
      as [(err & r' & w' & Hit)|(r2 & w2 & Hit & _ & _ & _ & _ & H1 & H2)].
    + exists 1%nat, err, r', w'. cbn [Run]. now rewrite Hit.
    + exfalso. unfold nextExecDelay in H2.
      destruct (Z.eqb_spec (runsCompleted r) 0); [contradiction|]. lia.
  - destruct (iteration_deadline r w Hd Hret)
      as [(err & r' & w' & Hit)
         |(r2 & w2 & Hit & Hd2 & HR2 & Hret2 & Hc2 & H1 & H2)].
    + exists 1%nat, err, r', w'. cbn [Run]. now rewrite Hit.
    + unfold nextExecDelay in H1, H2.
      destruct (Z.eqb_spec (runsCompleted r) 0); [contradiction|].
      assert (Hn2 : T - now w2 <= Z.of_nat n) by lia.
      destruct (Z.eq_dec (runsCompleted r2) 0) as [Hz|Hnz].
      * (* the counter has wrapped: one iteration without delay *)
        destruct (iteration_deadline r2 w2 Hd2 Hret2)
          as [(err & r' & w' & Hit2)
             |(r3 & w3 & Hit2 & Hd3 & HR3 & Hret3 & Hc3 & H3 & _)].
        { exists 2%nat, err, r', w'. cbn [Run]. now rewrite Hit, Hit2. }
        destruct (IH r3 w3) as (fuel & err & r' & w' & HRun); auto.
        { congruence. } { rewrite Hc3, Hz, Hone. discriminate. }
        { assert (0 <= Z.max 0 (nextExecDelay r2)) by lia. lia. }
        exists (S (S fuel)), err, r', w'. cbn [Run]. now rewrite Hit, Hit2.
      * destruct (IH r2 w2) as (fuel & err & r' & w' & HRun); auto.
        { congruence. }
        exists (S fuel), err, r', w'. cbn [Run]. now rewrite Hit.
Qed.

Lemma Run_deadline (r : Runner E) (w : World) :
  done_at (baseCtx r) = Some T ->
  0 < RetryDelay r ->
  always_returns (executor r) ->
  exists fuel err r' w', Run arch fuel r w = Returns err r' w'.
Proof.
  intros Hd Hpos Hret.
  assert (Hone : uint_incr arch 0 = 1).
  { apply uint_incr_small; [lia|]. destruct arch; reflexivity. }
  destruct (Z.eq_dec (runsCompleted r) 0) as [Hz|Hnz].
  - destruct (iteration_deadline r w Hd Hret)
      as [(err & r' & w' & Hit)
         |(r2 & w2 & Hit & Hd2 & HR2 & Hret2 & Hc2 & H1 & _)].
    + exists 1%nat, err, r', w'. cbn [Run]. now rewrite Hit.
    + assert (Hpos2 : 0 < RetryDelay r2) by congruence.
      assert (Hnz2 : runsCompleted r2 <> 0).
      { rewrite Hc2, Hz, Hone. discriminate. }
      assert (Hn2 : T - now w2 <= Z.of_nat (Z.to_nat (T - now w2))) by lia.
      destruct (Run_deadline_retrying (Z.to_nat (T - now w2)) r2 w2
                  Hd2 Hpos2 Hret2 Hnz2 Hn2)
        as (fuel & err & r' & w' & HRun).
      exists (S fuel), err, r', w'. cbn [Run]. now rewrite Hit.
  - apply (Run_deadline_retrying (Z.to_nat (T - now w))); auto. lia.
Qed.

End SuccessAndDeadline.

Section Attempts.

Variable arch : GOARCH.
Context {E : Type} {Ex : Executor E}.

Lemma attemptScope_config (r r2 : Runner E) (t : Time) :
  same_config r r2 -> attemptScope r2 t = attemptScope r t.
Proof.
  intros (_ & _ & Hb & Hp & _). unfold attemptScope. now rewrite Hb, Hp.
Qed.

Lemma attempts_app (tr1 tr2 : list event) :
  attempts (tr1 ++ tr2) = attempts tr1 ++ attempts tr2.
Proof.
  induction tr1 as [|[d c t|sc st fi res] tr1 IH]; cbn; [reflexivity|exact IH|].
  now rewrite IH.
Qed.

Lemma results_app (tr1 tr2 : list event) :
  results (tr1 ++ tr2) = results tr1 ++ results tr2.
Proof.
  induction tr1 as [|[d c t|sc st fi res] tr1 IH]; cbn; [reflexivity|exact IH|].
  now rewrite IH.
Qed.

Lemma invocations_app (tr1 tr2 : list event) :
  invocations (tr1 ++ tr2) = (invocations tr1 + invocations tr2)%nat.
Proof.
  induction tr1 as [|[d c t|sc st fi res] tr1 IH]; cbn; [reflexivity|exact IH|].
  now rewrite IH.
Qed.

Lemma invocations_results (tr : list event) :
  List.length (results tr) = invocations tr.
Proof.
  induction tr as [|[d c t|sc st fi res] tr IH]; cbn; [reflexivity|exact IH|].
  now rewrite IH.
Qed.

(** Every attempt of a run is made under the scope the Runner's
    configuration prescribes at the instant the attempt starts, within
    the time of the run. *)
Lemma Run_attempts (fuel : nat) :
  forall (r : Runner E) (w : World) err r' w',
    Run arch fuel r w = Returns err r' w' ->
    exists new,
      trace w' = new ++ trace w
      /\ forall scope start finish,
           In (scope, start, finish) (attempts new) ->
           scope = attemptScope r start
           /\ now w <= start /\ start <= finish /\ finish <= now w'.
Proof.
  induction fuel as [|fuel IH]; simpl; intros r w err r' w' H.
  - discriminate.
  - destruct (iteration arch r w) as [e0 r0 w0|r0 w0|] eqn:Hit;
      [| |discriminate].
    + inversion H; subst e0 r0 w0. clear H.
      apply iteration_Return in Hit.
      destruct Hit as [(Ha & _)|[(Ha & _)|(w1 & Ha & _ & Hx & _)]].
      * apply awaitNext_world in Ha. destruct Ha as (_ & _ & _ & Ht).
        exists [evSelect (nextExecDelay r) caseDone (now w')].
        split; [exact Ht|]. cbn. contradiction.
      * apply awaitNext_world in Ha. destruct Ha as (_ & _ & _ & Ht).
        exists [evSelect (nextExecDelay r) caseTimer (now w')].
        split; [exact Ht|]. cbn. contradiction.
      * apply awaitNext_world in Ha. destruct Ha as (_ & _ & Hn & Ht).
        apply executeCommand_inv in Hx.
        destruct Hx as (took & ex' & _ & _ & Hw). subst w'. cbn [trace now].
        exists [evExec (attemptScope r (now w1)) (now w1)
                       (now w1 + Z.max 0 took) None;
                evSelect (nextExecDelay r) caseTimer (now w1)].
        split; [rewrite Ht; reflexivity|].
        cbn. intros scope start finish [Heq|[]]. inversion Heq; subst.
        repeat split; lia.
    + pose proof (Run_config arch _ _ _ _ _ _ H) as (_ & _ & Hn0).
      destruct (IH _ _ _ _ _ H) as (new & Htr & Hall).
      pose proof (iteration_Continue_keeps arch _ _ _ _ Hit) as (Hc & _ & _).
      apply iteration_Continue in Hit.
      destruct Hit as (w1 & e & Ha & _ & Hx & _).
      apply awaitNext_world in Ha. destruct Ha as (_ & _ & Hn & Ht).
      apply executeCommand_inv in Hx.
      destruct Hx as (took & ex' & _ & _ & Hw).
      assert (Hn1 : now w0 = now w1 + Z.max 0 took) by (now subst w0).
      exists (new ++ [evExec (attemptScope r (now w1)) (now w1)
                             (now w1 + Z.max 0 took) e;
                      evSelect (nextExecDelay r) caseTimer (now w1)]).
      split.
      * rewrite Htr, <- app_assoc. f_equal. subst w0. cbn [trace].
        rewrite Ht. reflexivity.
      * intros scope start finish Hin. rewrite attempts_app in Hin.
        apply in_app_or in Hin. destruct Hin as [Hin|Hin].
        -- destruct (Hall _ _ _ Hin) as (Hs & H1 & H2 & H3).
           rewrite (attemptScope_config _ _ _ Hc) in Hs.
           repeat split; try assumption; lia.
        -- cbn in Hin. destruct Hin as [Heq|[]]. inversion Heq; subst.
           repeat split; lia.
Qed.

(** With the context done and a delay still to wait for, the loop
    returns the cause at once. *)
Lemma Run_done_positive_delay (fuel : nat) (r : Runner E) (w : World) :
  Done (baseCtx r) (now w) = true ->
  0 < nextExecDelay r ->
  exists w',
    Run arch (S fuel) r w = Returns (Some (done_cause (baseCtx r))) r w'
    /\ trace w' = evSelect (nextExecDelay r) caseDone (now w) :: trace w
    /\ now w' = now w.
Proof.
  intros Hd Hpos. cbn [Run]. unfold iteration, awaitNext.
  rewrite select_done_first by assumption. cbn [now].
  unfold Cause. rewrite Hd. eexists. split; [reflexivity|].
  cbn. split; reflexivity.
Qed.

Lemma Done_mono (ctx : Context) (t u : Time) :
  Done ctx t = true -> t <= u -> Done ctx u = true.
Proof.
  unfold Done. destruct (done_at ctx) as [dn|]; [|discriminate].
  rewrite !Z.leb_le. lia.
Qed.

End Attempts.

(* ================================================================= *)
(** ** Facts about logging *)

Section LoggingFacts.

Variable arch : GOARCH.
Context {E : Type} {Ex : Executor E}.

Lemma loopLogged_fst (fuel : nat) :
  forall lg (r : Runner E) (w : World) out,
    fst (loopLogged arch fuel lg r w out) = Run arch fuel r w.
Proof.
  induction fuel as [|fuel IH]; intros lg r w out; cbn [loopLogged Run].
  - reflexivity.
  - unfold iteration. destruct (awaitNext r w) as [[|] w1]; [reflexivity|].
    destruct ((0 <? MaxRuns r) && (MaxRuns r <=? runsCompleted r));
      [reflexivity|].
    destruct (executeCommand arch r w1) as [[[err r2] w2]|]; [|reflexivity].
    destruct err as [e|]; [apply IH|].
    destruct (negb (ContinueOnSuccess r2)); [reflexivity|apply IH].
Qed.

Lemma loopLogged_discard (fuel : nat) :
  forall (r : Runner E) (w : World) out,
    snd (loopLogged arch fuel DiscardHandler r w out) = out.
Proof.
  induction fuel as [|fuel IH]; intros r w out; cbn [loopLogged].
  - reflexivity.
  - destruct (awaitNext r w) as [[|] w1]; [reflexivity|].
    destruct ((0 <? MaxRuns r) && (MaxRuns r <=? runsCompleted r));
      [reflexivity|].
    destruct (executeCommand arch r w1) as [[[err r2] w2]|]; [|reflexivity].
    cbn [emit].
    destruct err as [e|]; [apply IH|].
    destruct (negb (ContinueOnSuccess r2)); [reflexivity|apply IH].
Qed.

Lemma emit_handed (lg : Logger) (rec : logRecord) (out : list logRecord) :
  emit lg rec out = handed lg [rec] ++ out.
Proof.
  unfold emit, handed. cbn [filter].
  destruct (Enabled lg (level rec)); reflexivity.
Qed.

Lemma handed_app (lg : Logger) (l1 l2 : list logRecord) :
  handed lg (l1 ++ l2) = handed lg l1 ++ handed lg l2.
Proof. apply filter_app. Qed.

(** What a logger has handed to its handler when the loop returns: of
    one record per executor call, with the result of the call, and of
    the final record, those whose level it enables. *)
Lemma loopLogged_records (fuel : nat) :
  forall lg (r : Runner E) (w : World) out err r' w' out',
    loopLogged arch fuel lg r w out = (Returns err r' w', out') ->
    exists new,
      trace w' = new ++ trace w
      /\ out' = handed lg (finalRecord err r'
                             :: map commandExecuted (results new)) ++ out.
Proof.
  induction fuel as [|fuel IH]; intros lg r w out err r' w' out' H;
    cbn [loopLogged] in H.
  - discriminate.
  - destruct (awaitNext r w) as [[|] w1] eqn:Ha.
    + pose proof (awaitNext_inv _ _ _ _ Ha) as [Hs _].
      apply select_caseDone_Done in Hs.
      apply awaitNext_world in Ha. destruct Ha as (_ & _ & _ & Ht).
      unfold Cause in H. rewrite Hs in H. inversion H; subst.
      exists [evSelect (nextExecDelay r') caseDone (now w')].
      split; [exact Ht|]. apply emit_handed.
    + apply awaitNext_world in Ha. destruct Ha as (_ & _ & _ & Ht).
      destruct ((0 <? MaxRuns r) && (MaxRuns r <=? runsCompleted r)).
      * inversion H; subst.
        exists [evSelect (nextExecDelay r') caseTimer (now w')].
        split; [exact Ht|]. apply emit_handed.
      * destruct (executeCommand arch r w1) as [[[e r2] w2]|] eqn:Hx;
          [|discriminate].
        apply executeCommand_inv in Hx.
        destruct Hx as (took & ex' & _ & _ & Hw).
        assert (Htr2 : trace w2
                       = [evExec (attemptScope r (now w1)) (now w1)
                                 (now w1 + Z.max 0 took) e;
                          evSelect (nextExecDelay r) caseTimer (now w1)]
                         ++ trace w).
        { subst w2. cbn [trace]. rewrite Ht. reflexivity. }
        assert (Hgo : forall o,
                   loopLogged arch fuel lg r2 w2
                     (emit lg (commandExecuted e) out)
                   = (Returns err r' w', o) ->
                   exists new,
                     trace w' = new ++ trace w
                     /\ o = handed lg (finalRecord err r'
                                         :: map commandExecuted (results new))
                              ++ out).
        { intros o Ho. destruct (IH _ _ _ _ _ _ _ _ Ho) as (new & Hn1 & Hn2).
          exists (new ++ [evExec (attemptScope r (now w1)) (now w1)
                                 (now w1 + Z.max 0 took) e;
                          evSelect (nextExecDelay r) caseTimer (now w1)]).
          split.
          - rewrite Hn1, Htr2, app_assoc. reflexivity.
          - rewrite Hn2, emit_handed, results_app, map_app.
            cbn [results map]. rewrite app_comm_cons, handed_app.
            rewrite <- app_assoc. reflexivity. }
        destruct e as [e|]; [now apply Hgo|].
        destruct (negb (ContinueOnSuccess r2)); [|now apply Hgo].
        inversion H; subst r' w' out' err.
        exists [evExec (attemptScope r (now w1)) (now w1)
                       (now w1 + Z.max 0 took) None;
                evSelect (nextExecDelay r) caseTimer (now w1)].
        split; [exact Htr2|].
        rewrite !emit_handed. cbn [results map].
        change [finalRecord None r2; commandExecuted None]
          with ([finalRecord None r2] ++ [commandExecuted None]).
        rewrite handed_app, <- app_assoc. reflexivity.
Qed.

(** The text handler of [main] takes every record of the Runner. *)
Lemma handed_text_records (err : option error) (r' : Runner E)
    (l : list (option error)) :
  handed TextHandler (finalRecord err r' :: map commandExecuted l)
  = finalRecord err r' :: map commandExecuted l.
Proof.
  assert (Hl : handed TextHandler (map commandExecuted l)
               = map commandExecuted l).
  { induction l as [|e l IH]; [reflexivity|].
    cbn [map]. unfold handed in *. cbn [filter].
    change (Enabled TextHandler (level (commandExecuted e))) with true.
    cbn iota. now rewrite IH. }
  unfold handed in *. cbn [filter].
  assert (He : Enabled TextHandler (level (finalRecord err r')) = true)
    by (destruct err; reflexivity).
  rewrite He, Hl. reflexivity.
Qed.

Lemma loopLogged_records_text (fuel : nat) :
  forall (r : Runner E) (w : World) out err r' w' out',
    loopLogged arch fuel TextHandler r w out = (Returns err r' w', out') ->
    exists new,
      trace w' = new ++ trace w
      /\ out' = finalRecord err r'
                  :: map commandExecuted (results new) ++ out.
Proof.
  intros r w out err r' w' out' H.
  apply loopLogged_records in H. destruct H as (new & Ht & Ho).
  exists new. split; [exact Ht|].
  rewrite Ho, handed_text_records. reflexivity.
Qed.

End LoggingFacts.

(* ================================================================= *)
(** ** Further properties: the loop *)

Lemma counting_succeeds_after (k : nat) :
  forall ce : countingExecutor,
    failures ce - calls ce = Z.of_nat k -> succeeds_after k ce.
Proof.
  induction k as [|k IH]; intros ce Hk; cbn [succeeds_after];
    intros ctx t opts nm ar;
    unfold exec_Run, counting_Executor, countingExecutor_Run.
  - destruct (Z.leb_spec (calls ce + 1) (failures ce)); [lia|]. eauto.
  - destruct (Z.leb_spec (calls ce + 1) (failures ce)); [|lia].
    eexists; eexists; eexists. split; [reflexivity|].
    apply IH. cbn. lia.
Qed.

(** X1.  [Run] changes nothing of the Runner but its counter and its
    executor: when it returns, the command, the context, the timeouts,
    the retry delay, the run limit, the continue flag and the command
    options are what they were when it was called. *)
Theorem Run_keeps_configuration
    (arch : GOARCH) {E : Type} {Ex : Executor E}
    (fuel : nat) (r : Runner E) (w : World) err r' w' :
  Run arch fuel r w = Returns err r' w' ->
  name r' = name r /\ args r' = args r /\ baseCtx r' = baseCtx r
  /\ ProcessTimeout r' = ProcessTimeout r /\ RetryDelay r' = RetryDelay r
  /\ MaxRuns r' = MaxRuns r /\ ContinueOnSuccess r' = ContinueOnSuccess r
  /\ CommandOptions r' = CommandOptions r.
Proof.
  intros H. exact (proj1 (Run_config arch fuel r w err r' w' H)).
Qed.

Lemma Run_keeps_configuration_witness :
  exists err r' w',
    Run (Ex := mock_Executor caseTimer) amd64 4 failingRunner timerFirst
    = Returns err r' w'
    /\ runsCompleted r' = 3
    /\ MaxRuns r' = MaxRuns failingRunner
    /\ RetryDelay r' = RetryDelay failingRunner.
Proof.
  eexists; eexists; eexists. split; [lazy; reflexivity|].
  split; [reflexivity|].
  pose proof (Run_keeps_configuration amd64 (Ex := mock_Executor caseTimer)
                4 failingRunner timerFirst _ _ _ eq_refl)
    as (_ & _ & _ & _ & HR & HM & _).
  split; [exact HM|exact HR].
Defined.

(** X2.  [Run] has three results and no other.  It returns the cause of
    the base context, and then the context is done and the last thing the
    loop did was to take the done case of its [select]; or it returns
    [errMaxRunsCompleted], and then [MaxRuns] is positive and reached by
    the counter; or it returns [nil], and then [ContinueOnSuccess] is off
    and the last thing the loop did was an executor call that returned
    [nil].  The error of a failed attempt is never what [Run] returns. *)
Theorem Run_result_kinds
    (arch : GOARCH) {E : Type} {Ex : Executor E}
    (fuel : nat) (r : Runner E) (w : World) err r' w' :
  Run arch fuel r w = Returns err r' w' ->
  (err = Some (done_cause (baseCtx r))
   /\ Done (baseCtx r) (now w') = true
   /\ exists d tr, trace w' = evSelect d caseDone (now w') :: tr)
  \/ (err = Some errMaxRunsCompleted
      /\ 0 < MaxRuns r <= runsCompleted r'
      /\ exists d tr, trace w' = evSelect d caseTimer (now w') :: tr)
  \/ (err = None
      /\ ContinueOnSuccess r = false
      /\ exists scope start tr,
           trace w' = evExec scope start (now w') None :: tr).
Proof. apply Run_kinds. Qed.

Lemma Run_result_kinds_witness :
  exists r' w' d tr,
    Run (Ex := mock_Executor caseTimer) amd64 6 deadlineRunner timerFirst
    = Returns (Some DeadlineExceeded) r' w'
    /\ Done (baseCtx deadlineRunner) (now w') = true
    /\ trace w' = evSelect d caseDone (now w') :: tr.
Proof.
  assert (HR : exists r' w',
             Run (Ex := mock_Executor caseTimer) amd64 6 deadlineRunner
                 timerFirst = Returns (Some DeadlineExceeded) r' w').
  { eexists; eexists. lazy. reflexivity. }
  destruct HR as (r' & w' & HR).
  destruct (Run_result_kinds amd64 (Ex := mock_Executor caseTimer)
              6 deadlineRunner timerFirst _ _ _ HR)
    as [(_ & Hd & d & tr & Ht)|[(He & _)|(He & _)]];
    [|discriminate He|discriminate He].
  exists r', w', d, tr. split; [exact HR|]. split; [exact Hd|exact Ht].
Defined.

(** X3.  [MaxRuns = 0] puts no cap on the number of runs: under a
    context that is never done, with an executor that always returns,
    [Run] never returns if every attempt fails, and never returns if
    [ContinueOnSuccess] is set, however long the loop is run. *)
Theorem Run_unlimited_never_returns
    (arch : GOARCH) {E : Type} {Ex : Executor E}
    (r : Runner E) (w : World) :
  MaxRuns r = 0 ->
  done_at (baseCtx r) = None ->
  always_returns (executor r) ->
  ContinueOnSuccess r = true \/ always_fails (executor r) ->
  forall fuel, Run arch fuel r w = OutOfFuel.
Proof.
  intros HM Hnd Hret Hor fuel. now apply Run_unlimited.
Qed.

Lemma Run_unlimited_never_returns_witness :
  always_fails (Ex := mock_Executor caseTimer) (executor plainRunner)
  /\ Run (Ex := mock_Executor caseTimer) arm 1000
         (set_MaxRuns 0 plainRunner) timerFirst = OutOfFuel.
Proof.
  assert (Hf : always_fails (Ex := mock_Executor caseTimer)
                 (executor plainRunner)).
  { apply mock_always_fails; [reflexivity|discriminate]. }
  split; [exact Hf|].
  apply (Run_unlimited_never_returns arm (Ex := mock_Executor caseTimer)
           (set_MaxRuns 0 plainRunner) timerFirst).
  - reflexivity.
  - reflexivity.
  - apply always_fails_returns. exact Hf.
  - right. exact Hf.
Defined.

(** X4.  With [ContinueOnSuccess] off and a context that is never done,
    a command that fails [k] times and then succeeds makes [Run] return
    [nil] after exactly [k + 1] executor calls, with
    [runsCompleted = k + 1], provided the run limit is 0 or more than
    [k] and [k + 1] is below [2^UintSize], so that the counter does not
    wrap; the loop has not waited before the first attempt and has
    waited [RetryDelay] before each of the [k] others. *)
Theorem Run_returns_nil_at_first_success
    (arch : GOARCH) {E : Type} {Ex : Executor E}
    (r : Runner E) (w : World) (k : nat) :
  succeeds_after k (executor r) ->
  ContinueOnSuccess r = false ->
  done_at (baseCtx r) = None ->
  runsCompleted r = 0 ->
  Z.of_nat k + 1 < uint_modulus arch ->
  MaxRuns r = 0 \/ Z.of_nat k < MaxRuns r ->
  exists r' w',
    (forall extra, Run arch (S k + extra) r w = Returns None r' w')
    /\ runsCompleted r' = Z.of_nat k + 1
    /\ invocations (trace w') = (invocations (trace w) + S k)%nat
    /\ delays (trace w') = repeat (RetryDelay r) k ++ 0 :: delays (trace w).
Proof.
  intros Hs Hcs Hnd Hrc Hlt HM.
  destruct (Run_first_success arch k r w) as (r' & w' & HR & H1 & H2 & H3);
    auto; try (rewrite Hrc; lia).
  exists r', w'. split; [|split; [|split]].
  - intros extra. now apply Run_fuel_mono.
  - rewrite H1, Hrc. lia.
  - exact H2.
  - rewrite H3. unfold nextExecDelay. now rewrite Hrc.
Qed.

Lemma Run_returns_nil_at_first_success_witness :
  succeeds_after 3 (mkCounting 3 0)
  /\ exists r' w',
       (forall extra,
           Run amd64 (4 + extra)
               (set_RetryDelay (250 * Millisecond)
                  (NewRunner (mkCounting 3 0) Background "succeed-after" []))
               timerFirst = Returns None r' w')
       /\ runsCompleted r' = 4
       /\ invocations (trace w') = 4%nat.
Proof.
  assert (Hs : succeeds_after 3 (mkCounting 3 0)).
  { apply counting_succeeds_after. reflexivity. }
  split; [exact Hs|].
  destruct (Run_returns_nil_at_first_success amd64
              (set_RetryDelay (250 * Millisecond)
                 (NewRunner (mkCounting 3 0) Background "succeed-after" []))
              timerFirst 3 Hs eq_refl eq_refl eq_refl eq_refl
              (or_introl eq_refl))
    as (r' & w' & HR & H1 & H2 & _).
  exists r', w'. split; [exact HR|]. split; [exact H1|exact H2].
Defined.

(** X5.  With [ContinueOnSuccess] set, a success does not end the run:
    under a context that is never done and with an executor that always
    returns, whatever its results, [Run] makes exactly [MaxRuns] attempts
    and returns [errMaxRunsCompleted]. *)
Theorem Run_continue_on_success_exhausts
    (arch : GOARCH) {E : Type} {Ex : Executor E}
    (r : Runner E) (w : World) (N : Z) :
  0 < N -> is_uint arch N ->
  MaxRuns r = N -> runsCompleted r = 0 ->
  ContinueOnSuccess r = true ->
  done_at (baseCtx r) = None ->
  always_returns (executor r) ->
  exists r' w',
    (forall extra,
        Run arch (S (Z.to_nat N) + extra) r w
        = Returns (Some errMaxRunsCompleted) r' w')
    /\ runsCompleted r' = N
    /\ invocations (trace w') = (invocations (trace w) + Z.to_nat N)%nat.
Proof.
  intros Hpos Hu HN Hrc Hcs Hnd Hret.
  destruct (Run_bounded_returns arch (Z.to_nat N) r w)
    as (err & r' & w' & HR); try rewrite HN; auto; try lia.
  assert (Hk : exists k : nat,
             invocations (trace w') = (invocations (trace w) + k)%nat
             /\ runsCompleted r' = runsCompleted r + Z.of_nat k
             /\ runsCompleted r' <= MaxRuns r).
  { apply (Run_counts_bounded arch (S (Z.to_nat N)) r w err r' w');
      try rewrite HN; auto; lia. }
  destruct Hk as (k & Hk1 & Hk2 & Hk3).
  destruct (Run_kinds arch _ _ _ _ _ _ HR)
    as [(_ & Hd & _)|[(He & Hm & _)|(_ & Hc & _)]].
  - unfold Done in Hd. rewrite Hnd in Hd. discriminate.
  - subst err. exists r', w'. split; [|split].
    + intros extra. now apply Run_fuel_mono.
    + lia.
    + rewrite Hk1. f_equal. lia.
  - congruence.
Qed.

Lemma Run_continue_on_success_exhausts_witness :
  always_returns (Ex := mock_Executor caseTimer) (executor continuingRunner)
  /\ exists r' w',
       (forall extra,
           Run (Ex := mock_Executor caseTimer) amd64 (S (Z.to_nat 3) + extra)
               continuingRunner timerFirst
           = Returns (Some errMaxRunsCompleted) r' w')
       /\ runsCompleted r' = 3
       /\ invocations (trace w')
          = (invocations (trace timerFirst) + Z.to_nat 3)%nat.
Proof.
  assert (Hret : always_returns (Ex := mock_Executor caseTimer)
                   (executor continuingRunner)).
  { apply mock_always_returns. reflexivity. }
  split; [exact Hret|].
  apply (Run_continue_on_success_exhausts amd64
           (Ex := mock_Executor caseTimer) continuingRunner timerFirst 3).
  - lia.
  - apply is_uint_3.
  - reflexivity.
  - reflexivity.
  - reflexivity.
  - reflexivity.
  - exact Hret.
Defined.

(** X6.  A deadline stops the Runner: if the base context is done at
    some instant [T], the retry delay is positive and the executor always
    returns, then [Run] returns, whatever the run limit, the continue
    flag and the results of the attempts.  If moreover there is no run
    limit and every attempt fails, what [Run] returns is the cause of the
    context, at an instant that is not before [T]. *)
Theorem Run_returns_by_deadline
    (arch : GOARCH) {E : Type} {Ex : Executor E}
    (r : Runner E) (w : World) (T : Time) :
  done_at (baseCtx r) = Some T ->
  0 < RetryDelay r ->
  always_returns (executor r) ->
  exists fuel err r' w',
    (forall extra, Run arch (fuel + extra) r w = Returns err r' w')
    /\ (MaxRuns r = 0 -> always_fails (executor r) ->
        err = Some (done_cause (baseCtx r)) /\ T <= now w').
Proof.
  intros Hd Hpos Hret.
  destruct (Run_deadline arch T r w Hd Hpos Hret)
    as (fuel & err & r' & w' & HR).
  exists fuel, err, r', w'. split.
  - intros extra. now apply Run_fuel_mono.
  - intros HM Hf.
    destruct (Run_kinds arch _ _ _ _ _ _ HR)
      as [(He & Hdone & _)|[(_ & Hm & _)|(He & _)]].
    + split; [exact He|]. unfold Done in Hdone. rewrite Hd in Hdone.
      now apply Z.leb_le.
    + lia.
    + exfalso. eapply Run_always_fails_not_nil; eauto.
Qed.

Lemma Run_returns_by_deadline_witness :
  always_fails (Ex := mock_Executor caseTimer) (executor deadlineRunner)
  /\ exists fuel err r' w',
       (forall extra,
           Run (Ex := mock_Executor caseTimer) amd64 (fuel + extra)
               deadlineRunner timerFirst = Returns err r' w')
       /\ err = Some DeadlineExceeded
       /\ 45 * Millisecond <= now w'.
Proof.
  assert (Hf : always_fails (Ex := mock_Executor caseTimer)
                 (executor deadlineRunner)).
  { apply mock_always_fails; [reflexivity|discriminate]. }
  split; [exact Hf|].
  destruct (Run_returns_by_deadline amd64 (Ex := mock_Executor caseTimer)
              deadlineRunner timerFirst (45 * Millisecond)
              eq_refl eq_refl (always_fails_returns _ Hf))
    as (fuel & err & r' & w' & HR & Hc).
  destruct (Hc eq_refl Hf) as [He Ht].
  exists fuel, err, r', w'. split; [exact HR|]. split; [exact He|exact Ht].
Defined.

(** X7.  Every attempt of a run starts and ends within the run, and is
    made under a scope fixed by the Runner's configuration: with a
    positive [ProcessTimeout] it is [context.WithTimeout] of the base
    context, taken when the attempt starts, so that it is done once the
    process timeout has passed; with a [ProcessTimeout] that is zero or
    negative it is the base context itself.  In either case the scope is
    done whenever the base context is. *)
Theorem Run_attempt_scopes
    (arch : GOARCH) {E : Type} {Ex : Executor E}
    (fuel : nat) (r : Runner E) (w : World) err r' w' :
  Run arch fuel r w = Returns err r' w' ->
  exists new,
    trace w' = new ++ trace w
    /\ forall scope start finish,
         In (scope, start, finish) (attempts new) ->
         now w <= start /\ start <= finish /\ finish <= now w'
         /\ (0 < ProcessTimeout r ->
             scope = WithTimeout (baseCtx r) start (ProcessTimeout r)
             /\ Done scope (start + ProcessTimeout r) = true)
         /\ (ProcessTimeout r <= 0 -> scope = baseCtx r)
         /\ (forall t, Done (baseCtx r) t = true -> Done scope t = true).
Proof.
  intros H. destruct (Run_attempts arch _ _ _ _ _ _ H) as (new & Ht & Hall).
  exists new. split; [exact Ht|].
  intros scope start finish Hin.
  destruct (Hall _ _ _ Hin) as (Hs & H1 & H2 & H3).
  split; [exact H1|]. split; [exact H2|]. split; [exact H3|].
  unfold attemptScope in Hs.
  destruct (Z.ltb_spec 0 (ProcessTimeout r)) as [Hpos|Hle].
  - split; [|split].
    + intros _. split; [exact Hs|]. subst scope.
      rewrite Done_WithTimeout, Z.leb_refl. apply orb_true_r.
    + intros Hneg. lia.
    + intros t Hd. subst scope. rewrite Done_WithTimeout, Hd. reflexivity.
  - split; [|split].
    + intros Hpos. lia.
    + intros _. exact Hs.
    + intros t Hd. now subst scope.
Qed.

Lemma Run_attempt_scopes_witness :
  exists err r' w' new,
    Run (Ex := mock_Executor caseTimer) amd64 4 timeoutRunner timerFirst
    = Returns err r' w'
    /\ trace w' = new ++ trace timerFirst
    /\ List.length (attempts new) = 3%nat
    /\ forall scope start finish,
         In (scope, start, finish) (attempts new) ->
         scope = WithTimeout Background start (50 * Millisecond)
         /\ Done scope (start + 50 * Millisecond) = true.
Proof.
  assert (HR : exists err r' w',
             Run (Ex := mock_Executor caseTimer) amd64 4 timeoutRunner
                 timerFirst = Returns err r' w'
             /\ List.length (attempts (trace w')) = 3%nat).
  { eexists; eexists; eexists. split; lazy; reflexivity. }
  destruct HR as (err & r' & w' & HR & Hlen).
  destruct (Run_attempt_scopes amd64 (Ex := mock_Executor caseTimer)
              4 timeoutRunner timerFirst _ _ _ HR) as (new & Ht & Hall).
  exists err, r', w', new. split; [exact HR|]. split; [exact Ht|]. split.
  - rewrite Ht in Hlen. change (trace timerFirst) with (@nil event) in Hlen.
    rewrite app_nil_r in Hlen. exact Hlen.
  - intros scope start finish Hin.
    destruct (Hall _ _ _ Hin) as (_ & _ & _ & Hpos & _).
    exact (Hpos eq_refl).
Defined.

(** X8.  A call of the mock executor never outlasts its sleep nor its
    scope: it takes at most [sleep], and it returns no later than the
    instant its scope is done.  When it returns before its sleep has
    ended, its result is the error of its scope.  It returns [nil] only
    if its exit code is 0, and it is the same mock afterwards. *)
Theorem mockExecutor_Run_contract
    (pick : selected) (me me' : mockExecutor) (ctx : Context) (start : Time)
    (opts : CommandOpts) (nm : string) (ar : list string) err took :
  mockExecutor_Run pick me ctx start opts nm ar = Some (err, took, me') ->
  me' = me
  /\ 0 <= took <= Z.max 0 (sleep me)
  /\ (forall dn, done_at ctx = Some dn -> start + took <= Z.max start dn)
  /\ (took < Z.max 0 (sleep me) -> err = Some (done_err ctx))
  /\ (err = None -> exitcode me = 0).
Proof.
  unfold mockExecutor_Run.
  destruct (select_ ctx start (sleep me) pick) as [[|] t] eqn:Hs.
  - intros H. inversion H; subst. clear H.
    pose proof (select_caseDone_Done _ _ _ _ _ Hs) as Hd.
    pose proof (select_time_mono _ _ _ _ _ _ Hs) as Hm.
    unfold select_ in Hs. unfold Err. rewrite Hd.
    destruct (done_at ctx) as [dn|]; [|discriminate].
    destruct (Z.compare_spec (Z.max start dn) (start + Z.max 0 (sleep me')))
      as [Heq|Hlt|Hgt]; inversion Hs; subst.
    + repeat split; try lia; try discriminate.
      intros dn' Hdn. inversion Hdn; subst. lia.
    + repeat split; try lia; try discriminate.
      intros dn' Hdn. inversion Hdn; subst. lia.
  - intros H.
    assert (Ht : t = start + Z.max 0 (sleep me)
                 /\ forall dn, done_at ctx = Some dn -> t <= Z.max start dn).
    { unfold select_ in Hs. destruct (done_at ctx) as [dn|].
      - destruct (Z.compare_spec (Z.max start dn) (start + Z.max 0 (sleep me)))
          as [Heq|Hlt|Hgt]; inversion Hs; subst;
          (split; [lia|intros dn' Hdn; inversion Hdn; subst; lia]).
      - inversion Hs; subst. split; [reflexivity|discriminate]. }
    destruct Ht as [Ht Hdn]. clear Hs.
    assert (Hres : me' = me /\ took = t - start
                   /\ (err = None -> exitcode me = 0)).
    { destruct (String.eqb (output me) EmptyString).
      - inversion H; subst. repeat split.
        destruct (Z.eqb_spec (exitcode me') 0); [auto|discriminate].
      - destruct (Stdout opts) as [wr|]; [|discriminate].
        destruct (wr (output me)); inversion H; subst; repeat split.
        + discriminate.
        + destruct (Z.eqb_spec (exitcode me') 0); [auto|discriminate]. }
    destruct Hres as (Hme & Htk & Hex). subst me' took.
    split; [reflexivity|]. split; [lia|]. split.
    + intros dn Hd. specialize (Hdn dn Hd). lia.
    + split; [lia|exact Hex].
Qed.

Lemma mockExecutor_Run_contract_witness :
  exists took me',
    mockExecutor_Run caseTimer (mkMock (100 * Millisecond) EmptyString 0)
      (WithTimeout Background 0 (50 * Millisecond)) 0 zeroCommandOpts
      EmptyString [] = Some (Some DeadlineExceeded, took, me')
    /\ took = 50 * Millisecond
    /\ 0 + took <= Z.max 0 (50 * Millisecond).
Proof.
  eexists; eexists. split; [lazy; reflexivity|]. split; [reflexivity|].
  destruct (mockExecutor_Run_contract caseTimer
              (mkMock (100 * Millisecond) EmptyString 0) _
              (WithTimeout Background 0 (50 * Millisecond)) 0 zeroCommandOpts
              EmptyString [] _ _ eq_refl) as (_ & _ & Hdn & _).
  exact (Hdn (50 * Millisecond) eq_refl).
Defined.

(** X9.  Called with a context that is already done and with a positive
    retry delay, a fresh Runner makes at most one attempt: its first
    [select] finds both cases ready, and the second one, if there is one,
    waits for a delay and so takes the done case.  [Run] returns the
    cause of the context, or [nil] if that one attempt succeeded with
    [ContinueOnSuccess] off; it makes no attempt at all when its first
    [select] takes the done case. *)
Theorem Run_done_context_at_most_one_attempt
    (arch : GOARCH) {E : Type} {Ex : Executor E}
    (r : Runner E) (w : World) :
  Done (baseCtx r) (now w) = true ->
  0 < RetryDelay r ->
  runsCompleted r = 0 ->
  always_returns (executor r) ->
  exists err r' w',
    (forall extra, Run arch (2 + extra) r w = Returns err r' w')
    /\ (invocations (trace w') <= invocations (trace w) + 1)%nat
    /\ (err = Some (done_cause (baseCtx r))
        \/ (err = None /\ ContinueOnSuccess r = false))
    /\ (sched w (selects w) = caseDone ->
        err = Some (done_cause (baseCtx r))
        /\ invocations (trace w') = invocations (trace w)).
Proof.
  intros Hd Hpos Hrc Hret.
  assert (Hned : nextExecDelay r = 0).
  { unfold nextExecDelay. now rewrite Hrc. }
  assert (Htie : forall w1,
             awaitNext r w = (caseTimer, w1) ->
             sched w (selects w) = caseTimer).
  { intros w1 Ha. apply awaitNext_inv in Ha. destruct Ha as [Hs _].
    rewrite select_done_tie in Hs by (assumption || lia). congruence. }
  assert (Hres : exists err r' w',
             Run arch 2 r w = Returns err r' w'
             /\ (invocations (trace w') <= invocations (trace w) + 1)%nat
             /\ (err = Some (done_cause (baseCtx r))
                 \/ (err = None /\ ContinueOnSuccess r = false))
             /\ (sched w (selects w) = caseDone ->
                 err = Some (done_cause (baseCtx r))
                 /\ invocations (trace w') = invocations (trace w))).
  { destruct (iteration arch r w) as [e0 r0 w0|r0 w0|] eqn:Hit.
    - exists e0, r0, w0. split; [cbn [Run]; now rewrite Hit|].
      apply iteration_Return in Hit.
      destruct Hit as [(Ha & _ & He)
                      |[(_ & _ & Hm & _)|(w1 & Ha & _ & Hx & Hc & He)]].
      + rewrite (awaitNext_invocations _ _ _ _ Ha).
        split; [lia|]. split; [now left|]. intros _. now split.
      + lia.
      + apply executeCommand_counts in Hx. destruct Hx as (Hi & _).
        rewrite Hi, (awaitNext_invocations _ _ _ _ Ha).
        split; [lia|]. split; [now right|].
        intros Hp. rewrite (Htie _ Ha) in Hp. discriminate.
    - pose proof (iteration_Continue_keeps arch _ _ _ _ Hit)
        as ((_ & _ & Hb & _ & HR & _) & _ & Hn).
      pose proof Hit as Hit'. apply iteration_Continue in Hit'.
      destruct Hit' as (w1 & e & Ha & _ & Hx & _).
      apply executeCommand_counts in Hx. destruct Hx as (Hi & Hc & _).
      assert (Hned2 : 0 < nextExecDelay r0).
      { unfold nextExecDelay. rewrite Hc, Hrc.
        rewrite uint_incr_small by (destruct arch; cbn; lia).
        cbn. lia. }
      assert (Hd2 : Done (baseCtx r0) (now w0) = true).
      { rewrite Hb. eapply Done_mono; eauto. }
      destruct (Run_done_positive_delay arch 0 r0 w0 Hd2 Hned2)
        as (w' & HR' & Ht & _).
      exists (Some (done_cause (baseCtx r0))), r0, w'.
      split; [cbn [Run]; rewrite Hit; exact HR'|].
      rewrite Ht. cbn [invocations].
      rewrite Hi, (awaitNext_invocations _ _ _ _ Ha), Hb.
      split; [lia|]. split; [now left|].
      intros Hp. rewrite (Htie _ Ha) in Hp. discriminate.
    - exfalso. apply iteration_Stuck_inv in Hit.
      destruct Hit as (ctx & t & Hex).
      eapply Hret; [apply reach_here|exact Hex]. }
  destruct Hres as (err & r' & w' & HR & H1 & H2 & H3).
  exists err, r', w'. split; [|auto].
  intros extra. now apply Run_fuel_mono.
Qed.

Lemma Run_done_context_at_most_one_attempt_witness :
  always_returns (Ex := mock_Executor caseDone) (executor cancelledRunner)
  /\ exists err r' w',
       (forall extra,
           Run (Ex := mock_Executor caseDone) amd64 (2 + extra)
               cancelledRunner timerFirst = Returns err r' w')
       /\ (invocations (trace w') <= invocations (trace timerFirst) + 1)%nat
       /\ (err = Some (done_cause (baseCtx cancelledRunner))
           \/ (err = None /\ ContinueOnSuccess cancelledRunner = false)).
Proof.
  assert (Hret : always_returns (Ex := mock_Executor caseDone)
                   (executor cancelledRunner)).
  { apply mock_always_returns. reflexivity. }
  split; [exact Hret|].
  destruct (Run_done_context_at_most_one_attempt amd64
              (Ex := mock_Executor caseDone) cancelledRunner timerFirst
              eq_refl eq_refl eq_refl Hret)
    as (err & r' & w' & HR & H1 & H2 & _).
  exists err, r', w'. split; [exact HR|]. split; [exact H1|exact H2].
Defined.

(* ================================================================= *)
(** ** Further properties: the logger and [main] *)

Lemma count_commandExecuted (l : list (option error)) (out : list logRecord) :
  count_message "Command executed" (map commandExecuted l ++ out)
  = (List.length l + count_message "Command executed" out)%nat.
Proof.
  induction l as [|e l IH]; [reflexivity|].
  cbn [map app List.length]. cbn [count_message].
  change (message (commandExecuted e)) with "Command executed"%string.
  rewrite String.eqb_refl, IH. reflexivity.
Qed.

(** X11.  A Runner built by [NewRunner], and a Runner whose logger was
    set to nil by [SetLogger], write no record at all; [SetLogger] never
    changes the Runner itself. *)
Theorem SetLogger_nil_discards
    (arch : GOARCH) {E : Type} {Ex : Executor E}
    (fuel : nat) (lr : LoggingRunner E) (w : World)
    (ex : E) (ctx : Context) (nm : string) (arg : list string) :
  snd (RunLogged arch fuel (SetLogger None lr) w) = []
  /\ snd (RunLogged arch fuel (NewLoggingRunner ex ctx nm arg) w) = []
  /\ forall lg, runner (SetLogger lg lr) = runner lr.
Proof.
  split; [|split].
  - unfold RunLogged, SetLogger. cbn [logger runner emit].
    apply loopLogged_discard.
  - unfold RunLogged, NewLoggingRunner. cbn [logger runner emit].
    apply loopLogged_discard.
  - intros [lg|]; reflexivity.
Qed.

(** X12.  What a Runner's logger has handed to its handler when [Run]
    returns.  The logging calls of the run are, oldest first: "Starting
    runner" (Info) with the command and its arguments; then one "Command
    executed" (Info) for each executor call of the run, in order, with
    the result of that call; then, last, "Runner stopped" (Warn) with the
    error [Run] returns as its reason, or, if [Run] returns [nil],
    "Completed successfully" (Info) with the command's name and the final
    value of [runsCompleted] as the number of attempts.  Of these the
    handler receives, in this order, exactly those whose level the logger
    enables; if Info is enabled, it has received one "Command executed"
    record per executor call. *)
Theorem RunLogged_records
    (arch : GOARCH) {E : Type} {Ex : Executor E}
    (fuel : nat) (lr : LoggingRunner E) (w : World) err r' w' out :
  RunLogged arch fuel lr w = (Returns err r' w', out) ->
  exists new,
    trace w' = new ++ trace w
    /\ rev out
       = handed (logger lr)
           (startingRunner (runner lr)
              :: map commandExecuted (rev (results new))
              ++ [match err with
                  | Some _ => runnerStopped err
                  | None =>
                      mkRecord LevelInfo "Completed successfully"
                        [attrString "name" (name (runner lr));
                         attrUint "attempts" (runsCompleted r')]
                  end])
    /\ (Enabled (logger lr) LevelInfo = true ->
        count_message "Command executed" out = invocations new).
Proof.
  intros H. unfold RunLogged in H.
  pose proof (loopLogged_fst arch fuel (logger lr) (runner lr) w
                (emit (logger lr) (startingRunner (runner lr)) [])) as Hfst.
  rewrite H in Hfst. cbn [fst] in Hfst. symmetry in Hfst.
  apply Run_config in Hfst. destruct Hfst as ((Hname & _) & _).
  apply loopLogged_records in H. destruct H as (new & Ht & Hout).
  rewrite emit_handed, app_nil_r, <- handed_app in Hout.
  exists new. split; [exact Ht|]. split.
  - rewrite Hout. unfold handed. rewrite <- filter_rev. f_equal.
    cbn [app rev]. rewrite rev_app_distr. cbn [rev app].
    rewrite <- map_rev. f_equal. f_equal.
    destruct err; [reflexivity|].
    unfold finalRecord, completedSuccessfully. now rewrite Hname.
  - intros Hinfo. rewrite Hout.
    assert (Hce : forall l : list (option error),
               handed (logger lr) (map commandExecuted l)
               = map commandExecuted l).
    { induction l as [|e l IH]; [reflexivity|].
      cbn [map]. unfold handed in *. cbn [filter].
      change (level (commandExecuted e)) with LevelInfo.
      now rewrite Hinfo, IH. }
    change (finalRecord err r' :: map commandExecuted (results new))
      with ([finalRecord err r'] ++ map commandExecuted (results new)).
    rewrite <- app_assoc, !handed_app, Hce.
    assert (Hfin : forall rest,
               count_message "Command executed"
                 (handed (logger lr) [finalRecord err r'] ++ rest)
               = count_message "Command executed" rest).
    { intros rest. unfold handed. cbn [filter].
      destruct (Enabled (logger lr) (level (finalRecord err r')));
        [|reflexivity].
      destruct err; reflexivity. }
    rewrite Hfin, count_commandExecuted, invocations_results.
    unfold handed. cbn [filter].
    destruct (Enabled (logger lr) (level (startingRunner (runner lr))));
      cbn; lia.
Qed.

Lemma RunLogged_records_witness :
  exists r' w' out,
    RunLogged (Ex := mock_Executor caseTimer) amd64 4
              (SetLogger (Some (levelHandler LevelWarn))
                 (mkLoggingRunner failingRunner DiscardHandler))
              timerFirst
    = (Returns (Some errMaxRunsCompleted) r' w', out)
    /\ out = [runnerStopped (Some errMaxRunsCompleted)]
    /\ exists new,
         trace w' = new ++ trace timerFirst
         /\ rev out
            = handed (levelHandler LevelWarn)
                (startingRunner failingRunner
                   :: map commandExecuted (rev (results new))
                   ++ [runnerStopped (Some errMaxRunsCompleted)]).
Proof.
  assert (HR : exists r' w' out,
             RunLogged (Ex := mock_Executor caseTimer) amd64 4
               (SetLogger (Some (levelHandler LevelWarn))
                  (mkLoggingRunner failingRunner DiscardHandler))
               timerFirst
             = (Returns (Some errMaxRunsCompleted) r' w', out)
             /\ out = [runnerStopped (Some errMaxRunsCompleted)]).
  { eexists; eexists; eexists. split; lazy; reflexivity. }
  destruct HR as (r' & w' & out & HR & Hout).
  exists r', w', out. split; [exact HR|]. split; [exact Hout|].
  destruct (RunLogged_records amd64 (Ex := mock_Executor caseTimer) 4
              (SetLogger (Some (levelHandler LevelWarn))
                 (mkLoggingRunner failingRunner DiscardHandler))
              timerFirst _ _ _ _ HR) as (new & Ht & Hrev & _).
  exists new. split; [exact Ht|exact Hrev].
Defined.

Lemma loopLogged_fuel_mono
    (arch : GOARCH) {E : Type} {Ex : Executor E} (fuel : nat) :
  forall lg (r : Runner E) (w : World) out err r' w' out',
    loopLogged arch fuel lg r w out = (Returns err r' w', out') ->
    forall extra,
      loopLogged arch (fuel + extra) lg r w out = (Returns err r' w', out').
Proof.
  induction fuel as [|fuel IH]; intros lg r w out err r' w' out' H extra;
    cbn [loopLogged Nat.add] in *.
  - discriminate.
  - destruct (awaitNext r w) as [[|] w1]; [exact H|].
    destruct ((0 <? MaxRuns r) && (MaxRuns r <=? runsCompleted r));
      [exact H|].
    destruct (executeCommand arch r w1) as [[[e r2] w2]|]; [|exact H].
    destruct e as [e|]; [now apply IH|].
    destruct (negb (ContinueOnSuccess r2)); [exact H|now apply IH].
Qed.

(** [main] once a command is given: the Runner it runs and what it does
    with the result. *)
Lemma main_with_command
    (arch : GOARCH) {E : Type} {Ex : Executor E} (fuel : nat)
    (ex : E) (fl : Cli.flags) (cmd : string) (cmdargs : list string)
    (interrupt : option Time) (w : World) rn err r' w' out :
  rn = Cli.mainRunner ex fl (now w) interrupt cmd cmdargs ->
  Run arch fuel rn w = Returns err r' w' ->
  loopLogged arch fuel TextHandler rn w [startingRunner rn]
  = (Returns err r' w', out) ->
  forall extra,
    Main.main arch (fuel + extra) ex fl (cmd :: cmdargs) interrupt w
    = Some (match err with
            | Some e => (1, Main.runnerError e :: out)
            | None => (0, out)
            end).
Proof.
  intros Hrn HR HL extra. unfold Main.main, RunLogged, SetLogger.
  cbn [logger runner emit]. rewrite <- Hrn.
  change (emit TextHandler (startingRunner rn) []) with [startingRunner rn].
  rewrite (loopLogged_fuel_mono arch fuel _ _ _ _ _ _ _ _ HL extra).
  destruct err; reflexivity.
Qed.

(** X13.  [wut] run with a positive [-timeout] and a positive
    [-retry-delay], without [-max-runs], on a command that always fails,
    and not interrupted before the timeout, exits with code 1; the last
    two records on its standard error stream are "Runner stopped" and
    "Runner encountered an error", both with the error "timeout exceeded"
    that [main] gave the context as its cause. *)
Theorem main_reports_timeout_exceeded
    (arch : GOARCH) {E : Type} {Ex : Executor E}
    (ex : E) (fl : Cli.flags) (cmd : string) (cmdargs : list string)
    (interrupt : option Time) (w : World) :
  0 < Cli.timeout fl ->
  (forall i, interrupt = Some i -> now w + Cli.timeout fl < i) ->
  0 < Cli.retryDelay fl ->
  Cli.maxRuns fl = 0 ->
  always_fails ex ->
  exists fuel out,
    forall extra,
      Main.main arch (fuel + extra) ex fl (cmd :: cmdargs) interrupt w
      = Some (1, Main.runnerError Cli.timeoutExceeded
                   :: runnerStopped (Some Cli.timeoutExceeded) :: out).
Proof.
  intros Ht Hint Hpos HM Hf.
  remember (Cli.mainRunner ex fl (now w) interrupt cmd cmdargs) as rn eqn:Hrn.
  assert (Hex : executor rn = ex) by (now subst rn).
  assert (HRD : RetryDelay rn = Cli.retryDelay fl) by (now subst rn).
  assert (HMR : MaxRuns rn = 0) by (subst rn; exact HM).
  assert (Hctx : done_at (baseCtx rn) = Some (now w + Cli.timeout fl)
                 /\ done_cause (baseCtx rn) = Cli.timeoutExceeded).
  { subst rn. unfold Cli.mainRunner, WithTimeoutCause.
    cbn [baseCtx set_RetryDelay set_MaxRuns set_ContinueOnSuccess NewRunner
         done_at done_cause].
    destruct (Z.ltb_spec 0 (Cli.timeout fl)) as [_|Hle]; [|lia].
    destruct interrupt as [i|]; cbn [done_at].
    - specialize (Hint i eq_refl).
      destruct (Z.leb_spec i (now w + Cli.timeout fl)); [lia|].
      split; reflexivity.
    - split; reflexivity. }
  destruct Hctx as (Hd & Hc).
  assert (Hf' : always_fails (executor rn)) by (now rewrite Hex).
  destruct (Run_deadline arch _ rn w Hd) as (fuel & err & r' & w' & HR).
  { rewrite HRD. exact Hpos. } { now apply always_fails_returns. }
  assert (He : err = Some Cli.timeoutExceeded).
  { rewrite <- Hc.
    destruct (Run_kinds arch _ _ _ _ _ _ HR)
      as [(He & _)|[(_ & Hm & _)|(He & _)]]; [exact He|lia|].
    exfalso. eapply Run_always_fails_not_nil; eauto. }
  destruct (loopLogged arch fuel TextHandler rn w [startingRunner rn])
    as [o out'] eqn:HL.
  pose proof (loopLogged_fst arch fuel TextHandler rn w [startingRunner rn])
    as Hfst.
  rewrite HL, HR in Hfst. cbn [fst] in Hfst. subst o.
  pose proof HL as HL'. apply loopLogged_records_text in HL'.
  destruct HL' as (new & _ & Hout).
  exists fuel, (map commandExecuted (results new) ++ [startingRunner rn]).
  intros extra.
  rewrite (main_with_command arch fuel ex fl cmd cmdargs interrupt w
             rn err r' w' out' Hrn HR HL extra).
  rewrite Hout, He. reflexivity.
Qed.

Lemma main_reports_timeout_exceeded_witness :
  always_fails (Ex := mock_Executor caseTimer) (mkMock 0 EmptyString 1)
  /\ exists fuel out,
       forall extra,
         Main.main (Ex := mock_Executor caseTimer) amd64 (fuel + extra)
                   (mkMock 0 EmptyString 1) timeoutFlags
                   ["false"%string] (Some Second) timerFirst
         = Some (1, Main.runnerError Cli.timeoutExceeded
                      :: runnerStopped (Some Cli.timeoutExceeded) :: out).
Proof.
  assert (Hf : always_fails (Ex := mock_Executor caseTimer)
                 (mkMock 0 EmptyString 1)).
  { apply mock_always_fails; [reflexivity|discriminate]. }
  split; [exact Hf|].
  apply (main_reports_timeout_exceeded amd64 (Ex := mock_Executor caseTimer)
           (mkMock 0 EmptyString 1) timeoutFlags "false" [] (Some Second)
           timerFirst).
  - reflexivity.
  - intros i Hi. inversion Hi; subst. reflexivity.
  - reflexivity.
  - reflexivity.
  - exact Hf.
Defined.

(** X14.  [wut] run without [-timeout] and without [-continue], never
    interrupted, on a command that fails [k] times and then succeeds
    (with [-max-runs] unset or above [k], and [k + 1] below
    [2^UintSize], so that the counter does not wrap), exits with code 0
    after [k + 1] runs: its last record is "Completed successfully" with
    the command's name and [attempts = k + 1], and it has written one
    "Command executed" record per run. *)
Theorem main_succeeds_after_retries
    (arch : GOARCH) {E : Type} {Ex : Executor E}
    (ex : E) (fl : Cli.flags) (cmd : string) (cmdargs : list string)
    (w : World) (k : nat) :
  succeeds_after k ex ->
  Cli.timeout fl <= 0 ->
  Cli.continueOnSuccess fl = false ->
  Cli.maxRuns fl = 0 \/ Z.of_nat k < Cli.maxRuns fl ->
  Z.of_nat k + 1 < uint_modulus arch ->
  exists out,
    (forall extra,
        Main.main arch (S k + extra) ex fl (cmd :: cmdargs) None w
        = Some (0, mkRecord LevelInfo "Completed successfully"
                     [attrString "name" cmd;
                      attrUint "attempts" (Z.of_nat k + 1)] :: out))
    /\ count_message "Command executed" out = S k.
Proof.
  intros Hs Ht Hcs HM Hlt.
  remember (Cli.mainRunner ex fl (now w) None cmd cmdargs) as rn eqn:Hrn.
  assert (Hex : executor rn = ex) by (now subst rn).
  assert (Hnm : name rn = cmd) by (now subst rn).
  assert (HC : ContinueOnSuccess rn = false) by (subst rn; exact Hcs).
  assert (HMR : MaxRuns rn = Cli.maxRuns fl) by (now subst rn).
  assert (Hrc : runsCompleted rn = 0) by (now subst rn).
  assert (Hnd : done_at (baseCtx rn) = None).
  { subst rn. unfold Cli.mainRunner.
    destruct (Z.ltb_spec 0 (Cli.timeout fl)); [lia|reflexivity]. }
  assert (Hs' : succeeds_after k (executor rn)) by (now rewrite Hex).
  assert (H0 : 0 <= runsCompleted rn) by lia.
  assert (Hlt' : runsCompleted rn + Z.of_nat k + 1 < uint_modulus arch) by lia.
  assert (HM' : MaxRuns rn = 0 \/ runsCompleted rn + Z.of_nat k < MaxRuns rn).
  { rewrite HMR, Hrc. lia. }
  destruct (Run_first_success arch k rn w Hs' HC Hnd H0 Hlt' HM')
    as (r' & w' & HR & H1 & H2 & _).
  destruct (loopLogged arch (S k) TextHandler rn w [startingRunner rn])
    as [o out'] eqn:HL.
  pose proof (loopLogged_fst arch (S k) TextHandler rn w [startingRunner rn])
    as Hfst.
  rewrite HL, HR in Hfst. cbn [fst] in Hfst. subst o.
  pose proof HL as HL'. apply loopLogged_records_text in HL'.
  destruct HL' as (new & Htr & Hout).
  pose proof (Run_config arch _ _ _ _ _ _ HR) as ((Hname & _) & _).
  exists (map commandExecuted (results new) ++ [startingRunner rn]).
  split.
  - intros extra.
    rewrite (main_with_command arch (S k) ex fl cmd cmdargs None w
               rn None r' w' out' Hrn HR HL extra).
    rewrite Hout. unfold finalRecord, completedSuccessfully.
    rewrite Hname, Hnm, H1, Hrc. reflexivity.
  - rewrite count_commandExecuted, invocations_results.
    apply (f_equal invocations) in Htr. rewrite invocations_app in Htr.
    cbn. lia.
Qed.

Lemma main_succeeds_after_retries_witness :
  succeeds_after 3 (mkCounting 3 0)
  /\ exists out,
       (forall extra,
           Main.main amd64 (4 + extra) (mkCounting 3 0) retryFlags
                     ["succeed-after"; "-fails=3"; "-file=attempts.dat"]%string
                     None timerFirst
           = Some (0, mkRecord LevelInfo "Completed successfully"
                        [attrString "name" "succeed-after";
                         attrUint "attempts" 4] :: out))
       /\ count_message "Command executed" out = 4%nat.
Proof.
  assert (Hs : succeeds_after 3 (mkCounting 3 0)).
  { apply counting_succeeds_after. reflexivity. }
  split; [exact Hs|].
  exact (main_succeeds_after_retries amd64 (mkCounting 3 0) retryFlags
           "succeed-after" ["-fails=3"; "-file=attempts.dat"]%string
           timerFirst 3 Hs (Z.le_refl 0) eq_refl (or_introl eq_refl) eq_refl).
Defined.

(* ================================================================= *)
(** ** Further properties: the run limit and the process timeout *)

Lemma Run_exhausted_before_success
    (arch : GOARCH) {E : Type} {Ex : Executor E} (n : nat) :
  forall (k : nat) (r : Runner E) (w : World),
    succeeds_after k (executor r) ->
    (n <= k)%nat ->
    done_at (baseCtx r) = None ->
    0 < MaxRuns r -> is_uint arch (MaxRuns r) ->
    0 <= runsCompleted r ->
    MaxRuns r - runsCompleted r = Z.of_nat n ->
    exists r' w',
      Run arch (S n) r w = Returns (Some errMaxRunsCompleted) r' w'
      /\ runsCompleted r' = MaxRuns r
      /\ invocations (trace w') = (invocations (trace w) + n)%nat.
Proof.
  induction n as [|n IH]; intros k r w Hs Hle Hnd Hpos Hu Hrc Hn.
  - assert (Hm : (0 <? MaxRuns r) && (MaxRuns r <=? runsCompleted r) = true).
    { apply andb_true_iff. rewrite Z.ltb_lt, Z.leb_le. lia. }
    cbn [Run]. unfold iteration, awaitNext.
    rewrite select_never_done by assumption. rewrite Hm.
    eexists; eexists. split; [reflexivity|]. cbn. split; lia.
  - destruct k as [|k]; [lia|].
    assert (Hm : (0 <? MaxRuns r) && (MaxRuns r <=? runsCompleted r) = false).
    { apply andb_false_iff. rewrite Z.ltb_ge, Z.leb_gt. lia. }
    set (t1 := now w + Z.max 0 (nextExecDelay r)).
    destruct (Hs (attemptScope r t1) t1 (CommandOptions r) (name r) (args r))
      as (e & took & ex' & Hex & Hs').
    set (r2 := mkRunner (name r) (args r) (baseCtx r) (ProcessTimeout r)
                 (RetryDelay r) (MaxRuns r) (ContinueOnSuccess r)
                 (CommandOptions r) (uint_incr arch (runsCompleted r)) ex').
    set (w2 := mkWorld (t1 + Z.max 0 took) (sched w) (S (selects w))
                 (evExec (attemptScope r t1) t1 (t1 + Z.max 0 took) (Some e)
                    :: evSelect (nextExecDelay r) caseTimer t1 :: trace w)).
    assert (Hit : iteration arch r w = Continue r2 w2).
    { unfold iteration, awaitNext.
      rewrite select_never_done by assumption. rewrite Hm.
      unfold executeCommand. cbn [now]. fold t1. rewrite Hex. reflexivity. }
    assert (Hc : runsCompleted r2 = runsCompleted r + 1).
    { unfold r2; cbn [runsCompleted]. unfold is_uint in Hu.
      apply uint_incr_small; lia. }
    assert (Hle' : (n <= k)%nat) by lia.
    assert (Hrc2 : 0 <= runsCompleted r2) by lia.
    assert (Hn2 : MaxRuns r2 - runsCompleted r2 = Z.of_nat n).
    { rewrite Hc. cbn [MaxRuns r2]. lia. }
    destruct (IH k r2 w2 Hs' Hle' Hnd Hpos Hu Hrc2 Hn2)
      as (r' & w' & HR & H1 & H2).
    exists r', w'. cbn [Run]. rewrite Hit. split; [exact HR|].
    split; [exact H1|]. rewrite H2. cbn. lia.
Qed.

(** X15.  The run limit is checked before every attempt: under a
    context that is never done, a command that would succeed on its run
    number [k + 1] is given up when [0 < MaxRuns <= k].  [Run] then
    returns [errMaxRunsCompleted] after exactly [MaxRuns] failed runs,
    whatever [ContinueOnSuccess] is. *)
Theorem Run_gives_up_before_success
    (arch : GOARCH) {E : Type} {Ex : Executor E}
    (r : Runner E) (w : World) (k : nat) (N : Z) :
  succeeds_after k (executor r) ->
  0 < N <= Z.of_nat k -> is_uint arch N ->
  MaxRuns r = N -> runsCompleted r = 0 ->
  done_at (baseCtx r) = None ->
  exists r' w',
    (forall extra,
        Run arch (S (Z.to_nat N) + extra) r w
        = Returns (Some errMaxRunsCompleted) r' w')
    /\ runsCompleted r' = N
    /\ invocations (trace w') = (invocations (trace w) + Z.to_nat N)%nat.
Proof.
  intros Hs HN Hu HM Hrc Hnd.
  assert (Hle : (Z.to_nat N <= k)%nat) by lia.
  assert (Hpos : 0 < MaxRuns r) by lia.
  assert (Hu' : is_uint arch (MaxRuns r)) by (now rewrite HM).
  assert (H0 : 0 <= runsCompleted r) by lia.
  assert (Hn : MaxRuns r - runsCompleted r = Z.of_nat (Z.to_nat N)) by lia.
  destruct (Run_exhausted_before_success arch (Z.to_nat N) k r w
              Hs Hle Hnd Hpos Hu' H0 Hn) as (r' & w' & HR & H1 & H2).
  exists r', w'. split; [|split].
  - intros extra. now apply Run_fuel_mono.
  - congruence.
  - exact H2.
Qed.

Lemma Run_gives_up_before_success_witness :
  succeeds_after 3 (mkCounting 3 0)
  /\ exists r' w',
       (forall extra,
           Run amd64 (S (Z.to_nat 3) + extra)
               (set_MaxRuns 3
                  (NewRunner (mkCounting 3 0) Background "succeed-after" []))
               timerFirst
           = Returns (Some errMaxRunsCompleted) r' w')
       /\ runsCompleted r' = 3.
Proof.
  assert (Hs : succeeds_after 3 (mkCounting 3 0)).
  { apply counting_succeeds_after. reflexivity. }
  split; [exact Hs|].
  assert (HN : 0 < 3 <= Z.of_nat 3) by (cbn; lia).
  destruct (Run_gives_up_before_success amd64
              (set_MaxRuns 3
                 (NewRunner (mkCounting 3 0) Background "succeed-after" []))
              timerFirst 3 3 Hs HN (is_uint_3 amd64) eq_refl eq_refl eq_refl)
    as (r' & w' & HR & H1 & _).
  exists r', w'. split; [exact HR|exact H1].
Defined.

(** The mock under a process timeout shorter than its sleep: the call
    lasts as long as the timeout and fails with the deadline error. *)
Lemma mock_times_out (pick : selected) (me : mockExecutor) (base : Context)
    (t : Time) (p : Duration) opts nm ar :
  done_at base = None -> 0 < p < sleep me ->
  exists took,
    mockExecutor_Run pick me (WithTimeout base t p) t opts nm ar
    = Some (Some DeadlineExceeded, took, me)
    /\ took = p.
Proof.
  intros Hnd Hp. unfold mockExecutor_Run, WithTimeout, WithTimeoutCause.
  rewrite Hnd. unfold select_. cbn [done_at].
  destruct (Z.compare_spec (Z.max t (t + p)) (t + Z.max 0 (sleep me)))
    as [Heq|Hlt|Hgt]; try lia.
  unfold Err, Done. cbn [done_at done_err].
  destruct (Z.leb_spec (t + p) (Z.max t (t + p))); [|lia].
  eexists. split; [reflexivity|lia].
Qed.

Lemma Run_process_timeout (arch : GOARCH) (pick : selected) (n : nat) :
  forall (r : Runner mockExecutor) (w : World),
    done_at (baseCtx r) = None ->
    0 < ProcessTimeout r < sleep (executor r) ->
    0 < MaxRuns r -> is_uint arch (MaxRuns r) ->
    0 <= runsCompleted r ->
    MaxRuns r - runsCompleted r = Z.of_nat n ->
    exists r' w',
      Run (Ex := mock_Executor pick) arch (S n) r w
      = Returns (Some errMaxRunsCompleted) r' w'
      /\ runsCompleted r' = MaxRuns r
      /\ results (trace w')
         = repeat (Some DeadlineExceeded) n ++ results (trace w)
      /\ now w' = now w + Z.max 0 (nextExecDelay r)
                  + Z.of_nat n * Z.max 0 (RetryDelay r)
                  + Z.of_nat n * ProcessTimeout r.
Proof.
  induction n as [|n IH]; intros r w Hnd Hp Hpos Hu Hrc Hn.
  - assert (Hm : (0 <? MaxRuns r) && (MaxRuns r <=? runsCompleted r) = true).
    { apply andb_true_iff. rewrite Z.ltb_lt, Z.leb_le. lia. }
    cbn [Run]. unfold iteration, awaitNext.
    rewrite select_never_done by assumption. rewrite Hm.
    eexists; eexists. split; [reflexivity|]. cbn. repeat split; lia.
  - assert (Hm : (0 <? MaxRuns r) && (MaxRuns r <=? runsCompleted r) = false).
    { apply andb_false_iff. rewrite Z.ltb_ge, Z.leb_gt. lia. }
    set (t1 := now w + Z.max 0 (nextExecDelay r)).
    assert (Hsc : attemptScope r t1
                  = WithTimeout (baseCtx r) t1 (ProcessTimeout r)).
    { unfold attemptScope.
      destruct (Z.ltb_spec 0 (ProcessTimeout r)); [reflexivity|lia]. }
    destruct (mock_times_out pick (executor r) (baseCtx r) t1
                (ProcessTimeout r) (CommandOptions r) (name r) (args r)
                Hnd Hp) as (took & Hex & Htook).
    set (r2 := mkRunner (name r) (args r) (baseCtx r) (ProcessTimeout r)
                 (RetryDelay r) (MaxRuns r) (ContinueOnSuccess r)
                 (CommandOptions r) (uint_incr arch (runsCompleted r))
                 (executor r)).
    set (w2 := mkWorld (t1 + Z.max 0 took) (sched w) (S (selects w))
                 (evExec (WithTimeout (baseCtx r) t1 (ProcessTimeout r)) t1
                         (t1 + Z.max 0 took) (Some DeadlineExceeded)
                    :: evSelect (nextExecDelay r) caseTimer t1 :: trace w)).
    assert (Hit : iteration (Ex := mock_Executor pick) arch r w
                  = Continue r2 w2).
    { unfold iteration, awaitNext.
      rewrite select_never_done by assumption. rewrite Hm.
      unfold executeCommand, exec_Run, mock_Executor. cbn [now]. fold t1.
      rewrite Hsc, Hex. reflexivity. }
    assert (Hc : runsCompleted r2 = runsCompleted r + 1).
    { unfold r2; cbn [runsCompleted]. unfold is_uint in Hu.
      apply uint_incr_small; lia. }
    assert (Hd : nextExecDelay r2 = RetryDelay r).
    { unfold nextExecDelay. rewrite Hc. cbn [RetryDelay r2].
      destruct (Z.eqb_spec (runsCompleted r + 1) 0); [lia|reflexivity]. }
    assert (Hrc2 : 0 <= runsCompleted r2) by lia.
    assert (Hn2 : MaxRuns r2 - runsCompleted r2 = Z.of_nat n).
    { rewrite Hc. cbn [MaxRuns r2]. lia. }
    destruct (IH r2 w2 Hnd Hp Hpos Hu Hrc2 Hn2)
      as (r' & w' & HR & H1 & H2 & H3).
    exists r', w'. cbn [Run]. rewrite Hit. split; [exact HR|].
    split; [exact H1|]. split.
    + rewrite H2. cbn [results w2 trace repeat].
      rewrite (repeat_cons n (Some DeadlineExceeded)).
      rewrite <- app_assoc. reflexivity.
    + rewrite H3, Hd. cbn [now w2 RetryDelay ProcessTimeout r2].
      rewrite Nat2Z.inj_succ. unfold t1. subst took.
      remember (Z.max 0 (RetryDelay r)) as mr.
      remember (Z.max 0 (nextExecDelay r)) as md.
      replace (Z.max 0 (ProcessTimeout r)) with (ProcessTimeout r) by lia.
      nia.
Qed.

(** X16.  With a process timeout shorter than the time the command takes
    (here: the sleep of the mock), under a context that is never done,
    every attempt is cut off when the process timeout has passed and
    counts as a failed run with the deadline error; after [MaxRuns = N]
    such runs [Run] returns [errMaxRunsCompleted], and the time elapsed
    is [N] times the process timeout plus [N] times the retry delay. *)
Theorem Run_process_timeout_elapsed
    (arch : GOARCH) (pick : selected)
    (r : Runner mockExecutor) (w : World) (N : Z) :
  0 < N -> is_uint arch N ->
  MaxRuns r = N -> runsCompleted r = 0 ->
  0 < ProcessTimeout r < sleep (executor r) ->
  done_at (baseCtx r) = None ->
  exists r' w',
    (forall extra,
        Run (Ex := mock_Executor pick) arch (S (Z.to_nat N) + extra) r w
        = Returns (Some errMaxRunsCompleted) r' w')
    /\ runsCompleted r' = N
    /\ results (trace w')
       = repeat (Some DeadlineExceeded) (Z.to_nat N) ++ results (trace w)
    /\ now w' - now w
       = N * ProcessTimeout r + N * Z.max 0 (RetryDelay r).
Proof.
  intros Hpos Hu HM Hrc Hp Hnd.
  assert (Hpos' : 0 < MaxRuns r) by lia.
  assert (Hu' : is_uint arch (MaxRuns r)) by (now rewrite HM).
  assert (H0 : 0 <= runsCompleted r) by lia.
  assert (Hn : MaxRuns r - runsCompleted r = Z.of_nat (Z.to_nat N)) by lia.
  destruct (Run_process_timeout arch pick (Z.to_nat N) r w
              Hnd Hp Hpos' Hu' H0 Hn) as (r' & w' & HR & H1 & H2 & H3).
  exists r', w'. split; [|split; [|split]].
  - intros extra.
    apply (@Run_fuel_mono arch _ (mock_Executor pick)). exact HR.
  - congruence.
  - exact H2.
  - rewrite H3. unfold nextExecDelay. rewrite Hrc. cbn [Z.eqb].
    rewrite Z2Nat.id by lia. lia.
Qed.

Lemma Run_process_timeout_elapsed_witness :
  0 < ProcessTimeout timeoutRunner < sleep (executor timeoutRunner)
  /\ exists r' w',
       (forall extra,
           Run (Ex := mock_Executor caseTimer) amd64 (S (Z.to_nat 3) + extra)
               timeoutRunner timerFirst
           = Returns (Some errMaxRunsCompleted) r' w')
       /\ runsCompleted r' = 3
       /\ now w' - now timerFirst
          = 3 * ProcessTimeout timeoutRunner
            + 3 * Z.max 0 (RetryDelay timeoutRunner).
Proof.
  assert (Hp : 0 < ProcessTimeout timeoutRunner
               < sleep (executor timeoutRunner)) by (cbn; lia).
  split; [exact Hp|].
  assert (H3 : 0 < 3) by lia.
  destruct (Run_process_timeout_elapsed amd64 caseTimer timeoutRunner
              timerFirst 3 H3 (is_uint_3 amd64) eq_refl eq_refl Hp eq_refl)
    as (r' & w' & HR & H1 & _ & H4).
  exists r', w'. split; [exact HR|]. split; [exact H1|exact H4].
Defined.

(* ================================================================= *)
(** ** The retry delay and the wrap of the counter *)

(** The first [k] runs of the counting double, when it has at least [k]
    failures left, on a Runner without run limit under a context that is
    never done: the loop goes round [k] times. *)
Lemma Run_counting_fails (arch : GOARCH) (k : nat) :
  forall (r : Runner countingExecutor) (w : World),
    done_at (baseCtx r) = None ->
    MaxRuns r = 0 ->
    is_uint arch (runsCompleted r) ->
    Z.of_nat k <= failures (executor r) - calls (executor r) ->
    exists r2 w2,
      (forall fuel, Run arch (k + fuel) r w = Run arch fuel r2 w2)
      /\ same_config r r2
      /\ runsCompleted r2
         = (runsCompleted r + Z.of_nat k) mod uint_modulus arch
      /\ executor r2 = mkCounting (failures (executor r))
                                  (calls (executor r) + Z.of_nat k)
      /\ invocations (trace w2) = (invocations (trace w) + k)%nat.
Proof.
  induction k as [|k IH]; intros r w Hnd Hmax Hu Hk.
  - exists r, w. split; [reflexivity|]. split; [apply same_config_refl|].
    split; [|split].
    + rewrite Z.add_0_r. symmetry. now apply Z.mod_small.
    + destruct (executor r) as [f c]. cbn. now rewrite Z.add_0_r.
    + lia.
  - set (t1 := now w + Z.max 0 (nextExecDelay r)).
    set (r1 := mkRunner (name r) (args r) (baseCtx r) (ProcessTimeout r)
                 (RetryDelay r) (MaxRuns r) (ContinueOnSuccess r)
                 (CommandOptions r) (uint_incr arch (runsCompleted r))
                 (mkCounting (failures (executor r))
                             (calls (executor r) + 1))).
    set (w1 := mkWorld (t1 + Z.max 0 0) (sched w) (S (selects w))
                 (evExec (attemptScope r t1) t1 (t1 + Z.max 0 0)
                    (Some (mockFailure (calls (executor r) + 1)))
                    :: evSelect (nextExecDelay r) caseTimer t1 :: trace w)).
    assert (Hit : iteration arch r w = Continue r1 w1).
    { unfold iteration, awaitNext.
      rewrite select_never_done by assumption. rewrite Hmax.
      cbn [Z.ltb Z.compare andb].
      unfold executeCommand, exec_Run, counting_Executor, countingExecutor_Run.
      destruct (Z.leb_spec (calls (executor r) + 1) (failures (executor r)));
        [|lia].
      reflexivity. }
    assert (Hk1 : Z.of_nat k <= failures (executor r1) - calls (executor r1)).
    { unfold r1; cbn. lia. }
    destruct (IH r1 w1 Hnd Hmax (uint_incr_range arch _) Hk1)
      as (r2 & w2 & HR & Hc & Hrc & Hex & Hinv).
    exists r2, w2. split; [|split; [|split; [|split]]].
    + intros fuel. cbn [Nat.add Run]. rewrite Hit. apply HR.
    + eapply same_config_trans; [|exact Hc].
      unfold same_config, r1. cbn. repeat split.
    + rewrite Hrc. unfold r1; cbn [runsCompleted]. unfold uint_incr.
      rewrite Zplus_mod_idemp_l. f_equal. lia.
    + rewrite Hex. unfold r1; cbn. f_equal. lia.
    + rewrite Hinv. unfold w1; cbn. lia.
Qed.

(** C5 fails on the code.  On the arm build, the Runner
    [wrapDelayRunner] (no run limit, [RetryDelay = 10ms], a context that
    is never done, a command that fails 2^32 times and then succeeds)
    returns success with its attempt number 2^32 + 1.  That attempt is
    not the first one, yet the delay the loop handed to [time.After]
    just before it is 0 and not [RetryDelay]: the counter has wrapped
    around to 0, and [nextExecDelay] takes a counter of 0 for the first
    run. *)
Theorem retry_delay_skipped_after_wrap :
  exists fuel r' w' scope start finish t tr,
    Run arm fuel wrapDelayRunner timerFirst = Returns None r' w'
    /\ trace w' = evExec scope start finish None
                    :: evSelect 0 caseTimer t :: tr
    /\ Z.of_nat (invocations tr) = 4294967296
    /\ RetryDelay r' = 10 * Millisecond.
Proof.
  assert (Hu : is_uint arm (runsCompleted wrapDelayRunner)).
  { unfold is_uint. rewrite uint_modulus_arm.
    change (runsCompleted wrapDelayRunner) with 0. lia. }
  assert (Hk : Z.of_nat (Z.to_nat 4294967296)
               <= failures (executor wrapDelayRunner)
                  - calls (executor wrapDelayRunner)).
  { rewrite Z2Nat.id by lia.
    change (failures (executor wrapDelayRunner)) with 4294967296.
    change (calls (executor wrapDelayRunner)) with 0. lia. }
  destruct (Run_counting_fails arm (Z.to_nat 4294967296) wrapDelayRunner
              timerFirst eq_refl eq_refl Hu Hk)
    as (r2 & w2 & HR & Hc & Hrc & Hex & Hinv).
  rewrite Z2Nat.id in Hrc, Hex by lia.
  change (runsCompleted wrapDelayRunner) with 0 in Hrc.
  change (failures (executor wrapDelayRunner)) with 4294967296 in Hex.
  change (calls (executor wrapDelayRunner)) with 0 in Hex.
  change (invocations (trace timerFirst)) with O in Hinv.
  rewrite uint_modulus_arm in Hrc.
  change ((0 + 4294967296) mod 4294967296) with 0 in Hrc.
  destruct Hc as (_ & _ & Hb & _ & HRD & HM & HCS & _).
  change (baseCtx wrapDelayRunner) with Background in Hb.
  change (RetryDelay wrapDelayRunner) with (10 * Millisecond) in HRD.
  change (MaxRuns wrapDelayRunner) with 0 in HM.
  change (ContinueOnSuccess wrapDelayRunner) with false in HCS.
  assert (Hned : nextExecDelay r2 = 0).
  { unfold nextExecDelay. now rewrite Hrc. }
  assert (Hlast : exists r' w' scope start finish t,
             Run arm 1 r2 w2 = Returns None r' w'
             /\ trace w' = evExec scope start finish None
                             :: evSelect 0 caseTimer t :: trace w2
             /\ RetryDelay r' = 10 * Millisecond).
  { cbn [Run]. unfold iteration, awaitNext.
    rewrite select_never_done by (now rewrite Hb).
    rewrite HM, Hned. cbn [Z.ltb Z.compare andb].
    unfold executeCommand, exec_Run, counting_Executor, countingExecutor_Run.
    rewrite Hex. cbn [calls failures].
    destruct (Z.leb_spec (0 + 4294967296 + 1) 4294967296); [lia|].
    cbn [ContinueOnSuccess]. rewrite HCS. cbn [negb].
    do 6 eexists. split; [reflexivity|]. cbn [trace RetryDelay].
    split; [reflexivity|exact HRD]. }
  destruct Hlast as (r' & w' & scope & start & finish & t & HR1 & Ht & HRD').
  exists (Z.to_nat 4294967296 + 1)%nat, r', w', scope, start, finish, t,
         (trace w2).
  split; [rewrite HR; exact HR1|]. split; [exact Ht|]. split; [|exact HRD'].
  rewrite Hinv, Nat.add_0_l, Z2Nat.id by lia. reflexivity.
Qed.
